(** * The blob-transaction tracker of [core/eth/subscribe_blobs.go]

    A shallow embedding of the event loop of [main] and of the helpers it
    calls ([txData], [recordTxMetrics], [recordTxInclusion],
    [saveDataToFile], [loadDataFromFile]), followed by the properties of the
    specification that can be stated over it.

    Conventions.
    - [common.Hash] and [common.Address] are fixed-size byte arrays; they are
      read as the natural number they spell.
    - [uint64] and [big.Int] values are integers of [Z]; where the program
      truncates a big integer with [Uint64()] the reduction modulo [2^64] is
      written out.  Go's [int] counters wrap at 64 bits ([wrap_int]).
    - [float64] values are IEEE-754 binary64 numbers ([spec_float] with a
      53-bit mantissa), computed with round-to-nearest-even as Go does.
    - [time.Time] is the wall clock in nanoseconds and [time.Duration] a
      number of nanoseconds.
    - [time.Now()] is an input of each case of the loop; the readings of the
      clock taken while one event is handled are identified.
    - A call that returns [(value, err)] is an [option]: [None] is [err != nil].
    - A [log.Fatal] ends the process; the file operations are taken to
      succeed. In the loop a file is represented by the slice it encodes;
      [Persist] has the JSON text in between.
    - The two Go maps are [gmap]s; a [range] over a map is a fold over a list
      of its entries in the order Go happens to pick. *)

From Stdlib Require Import ZArith NArith Lia List Strings.Byte Floats.SpecFloat.
From Equations Require Import Equations.
From stdpp Require Import gmap list fin_maps strings.

Local Open Scope Z_scope.

(** ** Machine numbers *)

Abbreviation Hash := N (only parsing).
Abbreviation Address := N (only parsing).
Abbreviation Time := Z (only parsing).
Abbreviation Duration := Z (only parsing).
Abbreviation float64 := spec_float (only parsing).

(** Go's [int] on a 64-bit platform: two's complement wrap-around. *)
Definition wrap_int (z : Z) : Z := (z + 2 ^ 63) mod 2 ^ 64 - 2 ^ 63.

(** [Uint64] of a [big.Int]: the low 64 bits of a non-negative big integer. *)
Definition Uint64 (z : Z) : Z := z mod 2 ^ 64.

(** Conversion of an integer to [float64], rounding to nearest even. *)
Definition float64_of_Z (z : Z) : float64 := binary_normalize 53 1024 z 0 false.

Definition fdiv (x y : float64) : float64 := SFdiv 53 1024 x y.
Definition fadd (x y : float64) : float64 := SFadd 53 1024 x y.

(** [params.GWei = 1e9], used as a [float64] divisor. *)
Definition GWei : float64 := float64_of_Z 1000000000.

(** The zero value of a [float64] field. *)
Definition float64_zero : float64 := S754_zero false.

(** [Seconds] of a [time.Duration]: whole seconds plus the fraction, in floating
    point; Go's integer division and remainder truncate towards zero. *)
Definition Seconds (d : Duration) : float64 :=
  fadd (float64_of_Z (Z.quot d 1000000000))
       (fdiv (float64_of_Z (Z.rem d 1000000000)) GWei).

(** [len] of a Go map and of a slice, as an [int]. *)
Definition len_map {A} (m : gmap Hash A) : Z := Z.of_nat (size m).
Definition len {A} (l : list A) : Z := Z.of_nat (length l).

(** ** What the program reads from the chain *)

(** [gethtypes.BlobTxType]. *)
Definition BlobTxType : Z := 3.

(** A [gethtypes.Transaction] through the accessors the program calls.
    [tx_Sender] is the outcome of
    [gethtypes.Sender(gethtypes.NewCancunSigner(chainID), tx)] for the chain
    identifier read at start-up; it depends on the transaction only. *)
Record Tx := mkTx {
  tx_Type : Z;
  tx_Hash : Hash;
  tx_Nonce : Z;
  tx_BlobGasFeeCap : Z;
  tx_BlobGas : Z;
  tx_BlobHashes : list Hash;
  tx_GasFeeCap : Z;
  tx_GasTipCap : Z;
  tx_Gas : Z;
  tx_Sender : option Address
}.

(** A [gethtypes.Header] whose [BaseFee] pointer is not [nil], with
    [h_BaseFee] the integer it points to: the header as the new-head case
    reads it once [h.BaseFee.Uint64()] has gone through. The header as the
    channel delivers it, whose [BaseFee] may be [nil], is [ReceivedHeader]
    below. [h_ExcessBlobGas] is a pointer that may be [nil]; [h_Extra] is the
    raw extra-data byte string. *)
Record Header := mkHeader {
  h_Hash : Hash;
  h_Number : Z;
  h_Time : Z;
  h_BaseFee : Z;
  h_ExcessBlobGas : option Z;
  h_Extra : list byte
}.

(** A [gethtypes.Receipt], as far as it is read. *)
Record Receipt := mkReceipt {
  r_BlockHash : Hash;
  r_BlockNumber : Z
}.

(** The node's answers to the point queries of one reconciliation pass:
    [ec.TransactionReceipt(ctx, hash)] and [ec.NonceAtHash(ctx, acc, blockHash)]. *)
Record Node := mkNode {
  TransactionReceipt : Hash -> option Receipt;
  NonceAtHash : Address -> Hash -> option Z
}.

(** The two pure library functions the loop calls:
    [eip4844.CalcBlobFee] and [strings.ToValidUTF8] (called with the empty
    replacement).  They belong to
    go-ethereum and to Go's standard library, so the development is
    parametric in them. *)
Class Library := {
  CalcBlobFee : Z -> Z;
  ToValidUTF8 : list byte -> list byte
}.

(** ** The four record types *)

Module TxData.
Record t := mk {
  TxHash : Hash;
  BlobGasFeeCapGwei : float64;
  BlobGas : Z;
  BlobCount : Z;
  GasFeeCapGwei : float64;
  GasTipCapGwei : float64;
  Gas : Z;
  Account : Address
}.
(** The zero value [TxData{}]. *)
Definition zero : t :=
  mk 0%N float64_zero 0 0 float64_zero float64_zero 0 0%N.
End TxData.

Module BlockData.
Record t := mk {
  BlockHash : Hash;
  BlockNumber : Z;
  BlockTime : Z;
  BlobBaseFeeWei : Z;
  BaseFeeGwei : float64;
  Builder : list byte
}.
End BlockData.

Module TxMetricsData.
(** [TxTime] holds [txTime.String()], the rendering of an instant; the
    instant itself stands for its rendering. *)
Record t := mk {
  Account : Address;
  BlobCount : Z;
  BlobGasFeeCap : Z;
  TxTime : Time
}.
End TxMetricsData.

Module TxInclusionData.
Record t := mk {
  Account : Address;
  BlobCount : Z;
  InclusionDelay : float64;
  GasTipGwei : float64
}.
End TxInclusionData.

(** ** The log *)

(** One constructor per log statement of the file, with the values handed
    to the logger: the arguments of [Msgf], and what is passed to [Fields].
    zerolog's [Fields] writes the entries of a map or of a slice and adds
    nothing for any other value, so that a struct passed to it, as [fields]
    of [LogReceivedTx], [LogReceivedBlock], [LogIncluded], [LogReplaced] and
    [LogStillPending] is, is an argument of the call and no part of the text
    of the line. *)
Inductive LogLine :=
| LogSenderError
| LogNonceError
| LogReceivedTx (fields : TxData.t)
| LogObservedTx (data : TxMetricsData.t)
| LogReceivedBlock (fields : BlockData.t)
| LogIncluded (fields : TxData.t) (blockNumber : Z) (since : Duration)
| LogTxInclusion (data : TxInclusionData.t)
| LogReplaced (fields : TxData.t) (since : Duration)
| LogStillPending (fields : TxData.t) (since : Duration)
| LogPendingTransactions (n : Z)
| LogViableTransactions (n : Z)
| LogViableBlobs (n : Z)
| LogTransactionInclusions (n : Z)
| LogBlobInclusionsByBuilder (builder : list byte) (n : Z)
| LogBlocksByBuilder (builder : list byte) (n : Z)
| LogPostBlockSummary (previousPendingTxs currentPendingTxs viableTxs : Z)
| LogPendingSubError
| LogHeadSubError.

(** ** The data folder *)

(** The four files of the data folder. A file holds the JSON array that
    [json.Encoder] wrote for a slice; it is represented by that slice, and
    [None] is a file that does not exist. ([Persist] below has the JSON text
    between the slice and the file.) *)
Record Disk := mkDisk {
  txDataFile : option (list TxData.t);
  blockDataFile : option (list BlockData.t);
  txMetricsFile : option (list TxMetricsData.t);
  txInclusionFile : option (list TxInclusionData.t)
}.

(** [saveDataToFile], once per file: the file is created anew and receives
    the whole slice. *)
Definition save_txData (l : list TxData.t) (d : Disk) : Disk :=
  mkDisk (Some l) (blockDataFile d) (txMetricsFile d) (txInclusionFile d).
Definition save_blockData (l : list BlockData.t) (d : Disk) : Disk :=
  mkDisk (txDataFile d) (Some l) (txMetricsFile d) (txInclusionFile d).
Definition save_txMetrics (l : list TxMetricsData.t) (d : Disk) : Disk :=
  mkDisk (txDataFile d) (blockDataFile d) (Some l) (txInclusionFile d).
Definition save_txInclusion (l : list TxInclusionData.t) (d : Disk) : Disk :=
  mkDisk (txDataFile d) (blockDataFile d) (txMetricsFile d) (Some l).

(** [loadDataFromFile]: the slice of the file, or the nil slice when the file
    does not exist. *)
Definition loadDataFromFile {T} (file : option (list T)) : list T :=
  match file with
  | Some l => l
  | None => []
  end.

(** ** The state of [main]

    The local variables of [main] that outlive one iteration of the loop,
    the data folder and the log written so far. *)
Record State := mkState {
  currBaseFee : Z;
  pendingTxs : gmap Hash Tx;
  txTime : gmap Hash Time;
  txDataList : list TxData.t;
  blockDataList : list BlockData.t;
  txMetricsList : list TxMetricsData.t;
  txInclusionList : list TxInclusionData.t;
  disk : Disk;
  log : list LogLine
}.

(** The state when the loop is entered: [currBaseFee] is [new(big.Int)],
    both maps are empty and the four slices are loaded from the data folder. *)
Definition initial (d : Disk) : State :=
  {| currBaseFee := 0;
     pendingTxs := ∅;
     txTime := ∅;
     txDataList := loadDataFromFile (txDataFile d);
     blockDataList := loadDataFromFile (blockDataFile d);
     txMetricsList := loadDataFromFile (txMetricsFile d);
     txInclusionList := loadDataFromFile (txInclusionFile d);
     disk := d;
     log := [] |}.

(** [time.Since(txTime[hash])]; a missing key reads as the zero instant. *)
Definition since (now : Time) (times : gmap Hash Time) (hash : Hash) : Duration :=
  now - default 0 (times !! hash).

(** ** The helpers *)

(** [txData]: the zero record, and an error line, when the sender cannot be
    recovered. *)
Definition txData (tx : Tx) : TxData.t * list LogLine :=
  match tx_Sender tx with
  | None => (TxData.zero, [LogSenderError])
  | Some acc =>
      ({| TxData.TxHash := tx_Hash tx;
          TxData.BlobGasFeeCapGwei := fdiv (float64_of_Z (Uint64 (tx_BlobGasFeeCap tx))) GWei;
          TxData.BlobGas := tx_BlobGas tx;
          TxData.BlobCount := len (tx_BlobHashes tx);
          TxData.GasFeeCapGwei := fdiv (float64_of_Z (Uint64 (tx_GasFeeCap tx))) GWei;
          TxData.GasTipCapGwei := fdiv (float64_of_Z (Uint64 (tx_GasTipCap tx))) GWei;
          TxData.Gas := tx_Gas tx;
          TxData.Account := acc |}, [])
  end.

(** [recordTxMetrics]: the slice is returned as it came when the sender
    cannot be recovered. *)
Definition recordTxMetrics (txMetricsList : list TxMetricsData.t) (tx : Tx)
    (txTime : Time) : list TxMetricsData.t * list LogLine :=
  match tx_Sender tx with
  | None => (txMetricsList, [LogSenderError])
  | Some acc =>
      let data :=
        {| TxMetricsData.Account := acc;
           TxMetricsData.BlobCount := len (tx_BlobHashes tx);
           TxMetricsData.BlobGasFeeCap := Uint64 (tx_BlobGasFeeCap tx);
           TxMetricsData.TxTime := txTime |} in
      (txMetricsList ++ [data], [LogObservedTx data])
  end.

(** [recordTxInclusion]. *)
Definition recordTxInclusion (txInclusionList : list TxInclusionData.t) (tx : Tx)
    (inclusionDelay : Duration) : list TxInclusionData.t * list LogLine :=
  match tx_Sender tx with
  | None => (txInclusionList, [LogSenderError])
  | Some acc =>
      let gasTip := float64_of_Z (tx_GasTipCap tx) in
      let gasTipGwei := fdiv gasTip GWei in
      let data :=
        {| TxInclusionData.Account := acc;
           TxInclusionData.BlobCount := len (tx_BlobHashes tx);
           TxInclusionData.InclusionDelay := Seconds inclusionDelay;
           TxInclusionData.GasTipGwei := gasTipGwei |} in
      (txInclusionList ++ [data], [LogTxInclusion data])
  end.

(** ** The pending-transaction case of the loop *)

(** [case tx := <-txChan]; [now] is what [time.Now()] returns. *)
Definition on_tx (st : State) (tx : Tx) (now : Time) : State :=
  if tx_Type tx =? BlobTxType then
    let tHash := tx_Hash tx in
    let '(data, l1) := txData tx in
    let times := <[tHash := now]> (txTime st) in
    let '(metrics, l2) :=
      recordTxMetrics (txMetricsList st) tx (default 0 (times !! tHash)) in
    let pending := <[tHash := tx]> (pendingTxs st) in
    let datas := txDataList st ++ [data] in
    {| currBaseFee := currBaseFee st;
       pendingTxs := pending;
       txTime := times;
       txDataList := datas;
       blockDataList := blockDataList st;
       txMetricsList := metrics;
       txInclusionList := txInclusionList st;
       disk := save_txMetrics metrics (save_txData datas (disk st));
       log := log st ++ l1 ++ [LogReceivedTx data] ++ l2 |}
  else st.

(** ** The new-head case of the loop *)

(** The variables that the [range] loop over [pendingTxs] updates: the state
    of [main] and the three counters declared just before the loop. *)
Record Pass := mkPass {
  p_state : State;
  blobsIncluded : Z;
  viabletxs : Z;
  viableBlobs : Z
}.

(** [delete(pendingTxs, hash); delete(txTime, hash)]. *)
Definition forget (hash : Hash) (st : State) : State :=
  {| currBaseFee := currBaseFee st;
     pendingTxs := delete hash (pendingTxs st);
     txTime := delete hash (txTime st);
     txDataList := txDataList st;
     blockDataList := blockDataList st;
     txMetricsList := txMetricsList st;
     txInclusionList := txInclusionList st;
     disk := disk st;
     log := log st |}.

(** Lines appended to the log. *)
Definition logged (lines : list LogLine) (st : State) : State :=
  {| currBaseFee := currBaseFee st;
     pendingTxs := pendingTxs st;
     txTime := txTime st;
     txDataList := txDataList st;
     blockDataList := blockDataList st;
     txMetricsList := txMetricsList st;
     txInclusionList := txInclusionList st;
     disk := disk st;
     log := log st ++ lines |}.

(** [txInclusionList = ...] followed, after the deletions, by
    [saveDataToFile] of the inclusion file. *)
Definition store_inclusions (l : list TxInclusionData.t) (st : State) : State :=
  {| currBaseFee := currBaseFee st;
     pendingTxs := pendingTxs st;
     txTime := txTime st;
     txDataList := txDataList st;
     blockDataList := blockDataList st;
     txMetricsList := txMetricsList st;
     txInclusionList := l;
     disk := save_txInclusion l (disk st);
     log := log st |}.

(** The guard of the first [if] of the loop body:
    [err == nil && r.BlockHash == h.Hash()]. *)
Definition receipt_in_head (node : Node) (h : Header) (hash : Hash) : option Receipt :=
  match TransactionReceipt node hash with
  | Some r => if bool_decide (r_BlockHash r = h_Hash h) then Some r else None
  | None => None
  end.

(** The body of [for hash, tx := range pendingTxs]; every [continue] is the
    end of a branch. *)
Definition loop_body (h : Header) (node : Node) (now : Time)
    (p : Pass) (e : Hash * Tx) : Pass :=
  let '(hash, tx) := e in
  let st := p_state p in
  match receipt_in_head node h hash with
  | Some r =>
      let '(data, l1) := txData tx in
      let l2 := [LogIncluded data (Uint64 (r_BlockNumber r)) (since now (txTime st) hash)] in
      let '(inclusions, l3) :=
        recordTxInclusion (txInclusionList st) tx (since now (txTime st) hash) in
      {| p_state := store_inclusions inclusions (forget hash (logged (l1 ++ l2 ++ l3) st));
         blobsIncluded := wrap_int (blobsIncluded p + len (tx_BlobHashes tx));
         viabletxs := viabletxs p;
         viableBlobs := viableBlobs p |}
  | None =>
      match tx_Sender tx with
      | None =>
          {| p_state := logged [LogSenderError] st;
             blobsIncluded := blobsIncluded p;
             viabletxs := viabletxs p;
             viableBlobs := viableBlobs p |}
      | Some acc =>
          match NonceAtHash node acc (h_Hash h) with
          | None =>
              {| p_state := logged [LogNonceError] st;
                 blobsIncluded := blobsIncluded p;
                 viabletxs := viabletxs p;
                 viableBlobs := viableBlobs p |}
          | Some currNonce =>
              if tx_Nonce tx <? currNonce then
                let '(data, l1) := txData tx in
                let l2 := [LogReplaced data (since now (txTime st) hash)] in
                {| p_state := forget hash (logged (l1 ++ l2) st);
                   blobsIncluded := blobsIncluded p;
                   viabletxs := viabletxs p;
                   viableBlobs := viableBlobs p |}
              else if negb (tx_Nonce tx =? currNonce) then p
              else if currBaseFee st <=? tx_BlobGasFeeCap tx then
                let '(data, l1) := txData tx in
                let l2 := [LogStillPending data (since now (txTime st) hash)] in
                {| p_state := logged (l1 ++ l2) st;
                   blobsIncluded := blobsIncluded p;
                   viabletxs := wrap_int (viabletxs p + 1);
                   viableBlobs := wrap_int (viableBlobs p + len (tx_BlobHashes tx)) |}
              else p
          end
      end
  end.

(** The whole loop, over the entries in the order [range] visits them. *)
Definition reconcile (h : Header) (node : Node) (now : Time)
    (st : State) (entries : list (Hash * Tx)) : Pass :=
  fold_left (loop_body h node now) entries (mkPass st 0 0 0).

(** The six numbers printed after the loop. *)
Record Aggregates := mkAggregates {
  previousPendingTxs : Z;
  currentPendingTxs : Z;
  transactionInclusions : Z;
  blobInclusions : Z;
  viableTransactions : Z;
  viableBlobCount : Z
}.

(** [previous] is the [len(pendingTxs)] taken before the loop. *)
Definition aggregates (previous : Z) (p : Pass) : Aggregates :=
  {| previousPendingTxs := previous;
     currentPendingTxs := len_map (pendingTxs (p_state p));
     transactionInclusions := wrap_int (previous - len_map (pendingTxs (p_state p)));
     blobInclusions := blobsIncluded p;
     viableTransactions := viabletxs p;
     viableBlobCount := viableBlobs p |}.

(** The seven log statements that close the case. *)
Definition summary_lines (builder : list byte) (a : Aggregates) : list LogLine :=
  [ LogPendingTransactions (currentPendingTxs a);
    LogViableTransactions (viableTransactions a);
    LogViableBlobs (viableBlobCount a);
    LogTransactionInclusions (transactionInclusions a);
    LogBlobInclusionsByBuilder builder (blobInclusions a);
    LogBlocksByBuilder builder 1;
    LogPostBlockSummary (previousPendingTxs a) (currentPendingTxs a) (viableTransactions a) ].

Section Loop.
Context `{Library}.

(** The value of [currBaseFee] after the first statement of the case. *)
Definition next_base_fee (st : State) (h : Header) : Z :=
  match h_ExcessBlobGas h with
  | Some excess => CalcBlobFee excess
  | None => currBaseFee st
  end.

(** The [BlockData] literal built from the header. *)
Definition block_record (fee : Z) (h : Header) : BlockData.t :=
  {| BlockData.BlockHash := h_Hash h;
     BlockData.BlockNumber := Uint64 (h_Number h);
     BlockData.BlockTime := h_Time h;
     BlockData.BlobBaseFeeWei := Uint64 fee;
     BlockData.BaseFeeGwei := fdiv (float64_of_Z (Uint64 (h_BaseFee h))) GWei;
     BlockData.Builder := ToValidUTF8 (h_Extra h) |}.

(** The statements of the case that precede the loop: the base fee is
    updated, the block record appended, logged and saved. *)
Definition record_block (st : State) (h : Header) : State :=
  let fee := next_base_fee st h in
  let blockData := block_record fee h in
  let blocks := blockDataList st ++ [blockData] in
  {| currBaseFee := fee;
     pendingTxs := pendingTxs st;
     txTime := txTime st;
     txDataList := txDataList st;
     blockDataList := blocks;
     txMetricsList := txMetricsList st;
     txInclusionList := txInclusionList st;
     disk := save_blockData blocks (disk st);
     log := log st ++ [LogReceivedBlock blockData] |}.

(** [case h := <-hdrChan]; [entries] is the order in which [range] yields
    the entries of [pendingTxs]. *)
Definition head_pass (st : State) (h : Header) (node : Node) (now : Time)
    (entries : list (Hash * Tx)) : Pass :=
  reconcile h node now (record_block st h) entries.

Definition head_aggregates (st : State) (h : Header) (node : Node) (now : Time)
    (entries : list (Hash * Tx)) : Aggregates :=
  let currentPendingTxs := len_map (pendingTxs (record_block st h)) in
  aggregates currentPendingTxs (head_pass st h node now entries).

Definition on_head (st : State) (h : Header) (node : Node) (now : Time)
    (entries : list (Hash * Tx)) : State :=
  logged (summary_lines (ToValidUTF8 (h_Extra h)) (head_aggregates st h node now entries))
         (p_state (head_pass st h node now entries)).

(** ** The loop *)

(** What the [select] can receive and handle to the end, the two error
    channels apart. A head comes with the node's answers during its pass,
    and with the order in which the map is ranged over; it is a head with a
    base fee ([Delivery] below has the heads as they are delivered, and
    [main_loop] the loop on them). *)
Inductive Event :=
| NewTx (tx : Tx) (now : Time)
| NewHead (h : Header) (node : Node) (now : Time) (entries : list (Hash * Tx)).

Definition handle (st : State) (ev : Event) : State :=
  match ev with
  | NewTx tx now => on_tx st tx now
  | NewHead h node now entries => on_head st h node now entries
  end.

(** The iterations of the [for] loop on a sequence of events. *)
Definition run (st : State) (evs : list Event) : State :=
  fold_left handle evs st.

(** The two error cases: a line is logged, the four files are saved, and
    [main] returns. *)
Definition shutdown (line : LogLine) (st : State) : State :=
  {| currBaseFee := currBaseFee st;
     pendingTxs := pendingTxs st;
     txTime := txTime st;
     txDataList := txDataList st;
     blockDataList := blockDataList st;
     txMetricsList := txMetricsList st;
     txInclusionList := txInclusionList st;
     disk :=
       save_txInclusion (txInclusionList st)
         (save_txMetrics (txMetricsList st)
           (save_blockData (blockDataList st)
             (save_txData (txDataList st) (disk st))));
     log := log st ++ [line] |}.

(** The states in which the loop can wait for its next event: [range]
    visits each entry of the map once, in some order. A head without a base
    fee leaves no such state ([head_case]). *)
Inductive reachable (d : Disk) : State -> Prop :=
| reach_initial : reachable d (initial d)
| reach_tx st tx now :
    reachable d st -> reachable d (on_tx st tx now)
| reach_head st h node now entries :
    reachable d st ->
    entries ≡ₚ map_to_list (pendingTxs st) ->
    reachable d (on_head st h node now entries).

End Loop.

(** ** A head as the channel delivers it

    [hdrChan] delivers pointers to [gethtypes.Header], in which [BaseFee] is
    itself a pointer: go-ethereum leaves it [nil] for a head that the node
    reports without [baseFeePerGas]. The case reads [h.ExcessBlobGas] under
    a guard, and then builds the [BlockData] literal, where
    [h.BaseFee.Uint64()] is evaluated with no guard: on a [nil] pointer that
    is a run-time panic, which ends the process before the record is
    appended, logged or saved. ([Number], the other pointer that the literal
    reads, is a field that go-ethereum requires when it decodes a header.) *)
Record ReceivedHeader := mkReceivedHeader {
  rh_Hash : Hash;
  rh_Number : Z;
  rh_Time : Z;
  rh_BaseFee : option Z;
  rh_ExcessBlobGas : option Z;
  rh_Extra : list byte
}.

(** The header read through its [BaseFee] pointer; [None] when the pointer
    is [nil]. *)
Definition dereferenced (rh : ReceivedHeader) : option Header :=
  match rh_BaseFee rh with
  | Some baseFee =>
      Some (mkHeader (rh_Hash rh) (rh_Number rh) (rh_Time rh) baseFee
                     (rh_ExcessBlobGas rh) (rh_Extra rh))
  | None => None
  end.

(** A header with a base fee, as it is delivered. *)
Definition delivered (h : Header) : ReceivedHeader :=
  mkReceivedHeader (h_Hash h) (h_Number h) (h_Time h) (Some (h_BaseFee h))
                   (h_ExcessBlobGas h) (h_Extra h).

(** How an iteration of the loop ends: the loop waits for its next event in
    the state [st], or the process has ended by a panic, [st] being the
    state at that moment. *)
Inductive Outcome :=
| Waiting (st : State)
| Panicked (st : State).

Definition state_of (o : Outcome) : State :=
  match o with
  | Waiting st => st
  | Panicked st => st
  end.

(** The assignment to [currBaseFee] alone. *)
Definition with_fee (fee : Z) (st : State) : State :=
  {| currBaseFee := fee;
     pendingTxs := pendingTxs st;
     txTime := txTime st;
     txDataList := txDataList st;
     blockDataList := blockDataList st;
     txMetricsList := txMetricsList st;
     txInclusionList := txInclusionList st;
     disk := disk st;
     log := log st |}.

(** What the [select] can receive, the two error channels apart, with the
    head as it is delivered. *)
Inductive Delivery :=
| DeliverTx (tx : Tx) (now : Time)
| DeliverHead (rh : ReceivedHeader) (node : Node) (now : Time)
    (entries : list (Hash * Tx)).

Section MainLoop.
Context `{Library}.

(** [case h := <-hdrChan] for a head as it is delivered. With a base fee the
    case is [on_head]. Without one, the guarded assignment to [currBaseFee]
    has been made when the [BlockData] literal panics, and nothing else. *)
Definition head_case (st : State) (rh : ReceivedHeader) (node : Node) (now : Time)
    (entries : list (Hash * Tx)) : Outcome :=
  match dereferenced rh with
  | Some h => Waiting (on_head st h node now entries)
  | None =>
      Panicked
        (with_fee
           match rh_ExcessBlobGas rh with
           | Some excess => CalcBlobFee excess
           | None => currBaseFee st
           end
           st)
  end.

(** One iteration of the [for] loop; after a panic there is none. *)
Definition iteration (o : Outcome) (d : Delivery) : Outcome :=
  match o with
  | Panicked st => Panicked st
  | Waiting st =>
      match d with
      | DeliverTx tx now => Waiting (on_tx st tx now)
      | DeliverHead rh node now entries => head_case st rh node now entries
      end
  end.

(** The loop of [main] on a sequence of deliveries. *)
Definition main_loop (st : State) (ds : list Delivery) : Outcome :=
  fold_left iteration ds (Waiting st).

End MainLoop.

(** The deliveries that the loop handles to the end, as events: all of them
    up to the first head without a base fee. *)
Fixpoint handled (ds : list Delivery) : list Event :=
  match ds with
  | [] => []
  | DeliverTx tx now :: ds' => NewTx tx now :: handled ds'
  | DeliverHead rh node now entries :: ds' =>
      match dereferenced rh with
      | Some h => NewHead h node now entries :: handled ds'
      | None => []
      end
  end.

(** An event, as it is delivered. *)
Definition delivery (ev : Event) : Delivery :=
  match ev with
  | NewTx tx now => DeliverTx tx now
  | NewHead h node now entries => DeliverHead (delivered h) node now entries
  end.

(** ** The library functions, for the examples

    The two functions of [Library] as go-ethereum and Go define them; the
    general results below do not depend on these definitions, the closed
    examples are computed with them. *)

Module Geth.

(** [fakeExponential] of go-ethereum's [eip4844] package approximates
    [factor * e ^ (numerator / denominator)] by a Taylor expansion:
    [for i := 1; accum.Sign() > 0; i++] adds [accum] to [output] and
    replaces [accum] by [accum * numerator / denominator / i]. The loop stops
    because [accum] decreases as soon as [i] exceeds
    [numerator / denominator]. *)
Equations? fakeExponential_loop (numerator : N) (denominator i : positive)
    (output accum : N) : N
  by wf (N.to_nat (numerator / Npos denominator + 1 - Npos i), N.to_nat accum)
        (Equations.Prop.Subterm.lexprod _ _ lt lt) :=
fakeExponential_loop numerator denominator i output accum :=
  if decide (0 < accum)%N then
    fakeExponential_loop numerator denominator (i + 1) (output + accum)
      (accum * numerator / Npos denominator / Npos i)
  else output.
Proof.
  destruct (decide (numerator / Npos denominator < Npos i)%N) as [Hlt|Hge].
  - replace (N.to_nat (numerator / N.pos denominator + 1 - N.pos (i + 1)))
      with (N.to_nat (numerator / N.pos denominator + 1 - N.pos i)) by lia.
    apply Equations.Prop.Subterm.right_lex.
    assert (numerator < Npos denominator * Npos i)%N as Hn.
    { destruct (N.lt_ge_cases numerator (Npos denominator * Npos i)) as [|Hle];
        [done|].
      apply N.div_le_lower_bound in Hle; lia. }
    assert (accum * numerator / Npos denominator / Npos i < accum)%N.
    { do 2 apply N.Div0.div_lt_upper_bound. nia. }
    lia.
  - apply Equations.Prop.Subterm.left_lex. lia.
Qed.

(** The same loop cut after [fuel] iterations, for computing. *)
Fixpoint fakeExponential_fuel (fuel : nat) (numerator : N) (denominator i : positive)
    (output accum : N) : option N :=
  match fuel with
  | O => None
  | S fuel' =>
      if decide (0 < accum)%N then
        fakeExponential_fuel fuel' numerator denominator (i + 1) (output + accum)
          (accum * numerator / Npos denominator / Npos i)
      else Some output
  end.

(** The loop is run with fuel first, and without when the fuel runs out:
    the value is that of the loop in both cases ([fakeExponential_eq]). *)
Definition fakeExponential (factor numerator : N) (denominator : positive) : N :=
  let output :=
    match fakeExponential_fuel 4096 numerator denominator 1 0 (factor * Npos denominator) with
    | Some output => output
    | None => fakeExponential_loop numerator denominator 1 0 (factor * Npos denominator)
    end in
  (output / Npos denominator)%N.

(** [params.BlobTxMinBlobGasprice] and [params.BlobTxBlobGaspriceUpdateFraction]. *)
Definition minBlobGasPrice : N := 1.
Definition blobGaspriceUpdateFraction : positive := 3338477.

Definition CalcBlobFee (excessBlobGas : Z) : Z :=
  Z.of_N (fakeExponential minBlobGasPrice (Z.to_N excessBlobGas) blobGaspriceUpdateFraction).

(** UTF-8, as [utf8.DecodeRune] reads it: the number of continuation bytes
    that a leading byte announces, and the range of the first of them. *)
Definition in_range (lo hi : N) (b : byte) : bool :=
  ((lo <=? Byte.to_N b) && (Byte.to_N b <=? hi))%N.

Definition continuation : byte -> bool := in_range 128 191.

Definition leading (c : byte) : option (nat * N * N) :=
  if in_range 194 223 c then Some (1%nat, 128, 191)%N
  else if in_range 224 224 c then Some (2%nat, 160, 191)%N
  else if in_range 225 236 c then Some (2%nat, 128, 191)%N
  else if in_range 237 237 c then Some (2%nat, 128, 159)%N
  else if in_range 238 239 c then Some (2%nat, 128, 191)%N
  else if in_range 240 240 c then Some (3%nat, 144, 191)%N
  else if in_range 241 243 c then Some (3%nat, 128, 191)%N
  else if in_range 244 244 c then Some (3%nat, 128, 143)%N
  else None.

(** [strings.ToValidUTF8] with the empty replacement: a byte below 128 and a
    well-formed sequence are copied, any other byte is dropped and decoding
    resumes at the next byte. *)
Fixpoint ToValidUTF8 (s : list byte) : list byte :=
  match s with
  | [] => []
  | c :: s1 =>
      if in_range 0 127 c then c :: ToValidUTF8 s1
      else
        match leading c with
        | Some (1%nat, lo, hi) =>
            match s1 with
            | c1 :: s2 =>
                if in_range lo hi c1 then c :: c1 :: ToValidUTF8 s2
                else ToValidUTF8 s1
            | _ => ToValidUTF8 s1
            end
        | Some (2%nat, lo, hi) =>
            match s1 with
            | c1 :: c2 :: s3 =>
                if in_range lo hi c1 && continuation c2
                then c :: c1 :: c2 :: ToValidUTF8 s3
                else ToValidUTF8 s1
            | _ => ToValidUTF8 s1
            end
        | Some (3%nat, lo, hi) =>
            match s1 with
            | c1 :: c2 :: c3 :: s4 =>
                if in_range lo hi c1 && continuation c2 && continuation c3
                then c :: c1 :: c2 :: c3 :: ToValidUTF8 s4
                else ToValidUTF8 s1
            | _ => ToValidUTF8 s1
            end
        | _ => ToValidUTF8 s1
        end
  end.

End Geth.

#[export] Instance geth : Library :=
  {| CalcBlobFee := Geth.CalcBlobFee; ToValidUTF8 := Geth.ToValidUTF8 |}.

(** ** The classification of one pending entry

    The outcome of the loop body for one entry, read off its guards in the
    order in which they are tested. [fee] is [currBaseFee]. *)
Inductive Verdict :=
| Included
| SenderUnknown
| NonceUnknown
| Superseded
| Blocked
| Viable
| NotViable.

Definition verdict (fee : Z) (h : Header) (node : Node) (hash : Hash) (tx : Tx) : Verdict :=
  match receipt_in_head node h hash with
  | Some _ => Included
  | None =>
      match tx_Sender tx with
      | None => SenderUnknown
      | Some acc =>
          match NonceAtHash node acc (h_Hash h) with
          | None => NonceUnknown
          | Some currNonce =>
              if tx_Nonce tx <? currNonce then Superseded
              else if negb (tx_Nonce tx =? currNonce) then Blocked
              else if fee <=? tx_BlobGasFeeCap tx then Viable
              else NotViable
          end
      end
  end.

(** The two outcomes that end the life of a pending entry. *)
Definition terminal (v : Verdict) : bool :=
  match v with
  | Included | Superseded => true
  | _ => false
  end.

Definition retires (fee : Z) (h : Header) (node : Node) (e : Hash * Tx) : bool :=
  terminal (verdict fee h node e.1 e.2).

(** What a pass does to a map keyed by hash: the keys of the retired entries
    are deleted. *)
Definition sweep {A} (fee : Z) (h : Header) (node : Node)
    (l : list (Hash * Tx)) (m : gmap Hash A) : gmap Hash A :=
  fold_left (fun m e => if retires fee h node e then delete e.1 m else m) l m.

(** What one entry does to the counters
    [(blobsIncluded, viabletxs, viableBlobs)]. *)
Definition count_step (fee : Z) (h : Header) (node : Node)
    (c : Z * Z * Z) (e : Hash * Tx) : Z * Z * Z :=
  let '(b, v, vb) := c in
  match verdict fee h node e.1 e.2 with
  | Included => (wrap_int (b + len (tx_BlobHashes e.2)), v, vb)
  | Viable => (b, wrap_int (v + 1), wrap_int (vb + len (tx_BlobHashes e.2)))
  | _ => c
  end.

Definition counters (p : Pass) : Z * Z * Z :=
  (blobsIncluded p, viabletxs p, viableBlobs p).

(** ** The base fee, as the specification words it

    Zero until a head carries the excess-blob-gas field; after a head that
    carries it, the formula applied to that field; unchanged by a head that
    lacks it, and by a pending transaction. *)
Fixpoint fee_after `{Library} (fee : Z) (evs : list Event) : Z :=
  match evs with
  | [] => fee
  | NewTx _ _ :: evs' => fee_after fee evs'
  | NewHead h _ _ _ :: evs' =>
      match h_ExcessBlobGas h with
      | Some excess => fee_after (CalcBlobFee excess) evs'
      | None => fee_after fee evs'
      end
  end.

(** ** Terminal lines of the log

    The log statements that say that a transaction was included or
    replaced, made for the transaction of hash [hash]: the hash is the one
    of the record passed to [Fields], which identifies the call and is not
    in the text of the line. *)
Definition terminal_line (hash : Hash) (line : LogLine) : bool :=
  match line with
  | LogIncluded fields _ _ => bool_decide (TxData.TxHash fields = hash)
  | LogReplaced fields _ => bool_decide (TxData.TxHash fields = hash)
  | _ => false
  end.

(** ** Data for the examples *)

Definition gwei : Z := 1000000000.

Definition sender_X : Address := 88%N.
Definition sender_Y : Address := 99%N.

(** A blob transaction of sender X: nonce 5, blob-fee cap 10 gwei, two blobs. *)
Definition tx_A : Tx :=
  {| tx_Type := 3;
     tx_Hash := 10%N;
     tx_Nonce := 5;
     tx_BlobGasFeeCap := 10 * gwei;
     tx_BlobGas := 262144;
     tx_BlobHashes := [101%N; 102%N];
     tx_GasFeeCap := 30 * gwei;
     tx_GasTipCap := 2 * gwei;
     tx_Gas := 21000;
     tx_Sender := Some sender_X |}.

(** A blob transaction of sender Y: nonce 0, one blob. *)
Definition tx_B : Tx :=
  {| tx_Type := 3;
     tx_Hash := 20%N;
     tx_Nonce := 0;
     tx_BlobGasFeeCap := 3 * gwei;
     tx_BlobGas := 131072;
     tx_BlobHashes := [201%N];
     tx_GasFeeCap := 20 * gwei;
     tx_GasTipCap := 1 * gwei;
     tx_Gas := 21000;
     tx_Sender := Some sender_Y |}.

(** A blob transaction whose signature yields no sender. *)
Definition tx_unsigned : Tx :=
  {| tx_Type := 3;
     tx_Hash := 30%N;
     tx_Nonce := 1;
     tx_BlobGasFeeCap := 4 * gwei;
     tx_BlobGas := 131072;
     tx_BlobHashes := [301%N];
     tx_GasFeeCap := 20 * gwei;
     tx_GasTipCap := 1 * gwei;
     tx_Gas := 21000;
     tx_Sender := None |}.

(** A dynamic-fee transaction (type 2), which carries no blob. *)
Definition tx_plain : Tx :=
  {| tx_Type := 2;
     tx_Hash := 40%N;
     tx_Nonce := 7;
     tx_BlobGasFeeCap := 0;
     tx_BlobGas := 0;
     tx_BlobHashes := [];
     tx_GasFeeCap := 20 * gwei;
     tx_GasTipCap := 1 * gwei;
     tx_Gas := 21000;
     tx_Sender := Some sender_Y |}.

(** Head number 7, with no excess blob gas; its extra data spells [geth]. *)
Definition head_7 : Header :=
  {| h_Hash := 700%N;
     h_Number := 7;
     h_Time := 1700000000;
     h_BaseFee := 25 * gwei;
     h_ExcessBlobGas := Some 0;
     h_Extra := [x67; x65; x74; x68]%byte |}.

(** Head number 8, whose excess blob gas puts the blob base fee just below
    8 gwei. *)
Definition head_8 : Header :=
  {| h_Hash := 800%N;
     h_Number := 8;
     h_Time := 1700000012;
     h_BaseFee := 25 * gwei;
     h_ExcessBlobGas := Some 76100000;
     h_Extra := [x67; x65; x74; x68]%byte |}.

(** Head number 9 as a node without [baseFeePerGas] reports it. *)
Definition head_9_without_base_fee : ReceivedHeader :=
  {| rh_Hash := 900%N;
     rh_Number := 9;
     rh_Time := 1700000024;
     rh_BaseFee := None;
     rh_ExcessBlobGas := Some 76100000;
     rh_Extra := [x67; x65; x74; x68]%byte |}.

(** A node that knows no receipt; the nonce of X is [nonce_X], that of every
    other account is 0. *)
Definition node_without_receipt (nonce_X : Z) : Node :=
  {| TransactionReceipt := fun _ => None;
     NonceAtHash := fun acc _ => Some (if (acc =? sender_X)%N then nonce_X else 0) |}.

(** A node for which head 7 contains transaction A, so that the nonce of X
    has moved to 6. *)
Definition node_including_A : Node :=
  {| TransactionReceipt := fun hash =>
       if (hash =? tx_Hash tx_A)%N then Some (mkReceipt (h_Hash head_7) 7) else None;
     NonceAtHash := fun acc _ => Some (if (acc =? sender_X)%N then 6 else 0) |}.

(** A node whose nonce lookups fail. *)
Definition node_without_nonce : Node :=
  {| TransactionReceipt := fun _ => None;
     NonceAtHash := fun _ _ => None |}.

Definition empty_disk : Disk := mkDisk None None None None.

(** The state after transaction A was received at instant 100 of an empty
    start. *)
Definition state_A : State := on_tx (initial empty_disk) tx_A 100.

(** The state after A and then B were received. *)
Definition state_AB : State := on_tx state_A tx_B 150.

(** ** Measures of a pass and of a run *)

(** The number of elements of a list that pass a test. *)
Definition countb {A} (f : A -> bool) (l : list A) : nat :=
  length (List.filter f l).

(** The entries that a pass counts as viable. *)
Definition is_viable (fee : Z) (h : Header) (node : Node) (e : Hash * Tx) : bool :=
  match verdict fee h node e.1 e.2 with
  | Viable => true
  | _ => false
  end.

(** What the iteration on entry [e] appends to the inclusion records, when
    the timestamps are [times]: the record of [recordTxInclusion] for an
    entry found in the block of the head, nothing for any other. *)
Definition new_inclusions (h : Header) (node : Node) (now : Time)
    (times : gmap Hash Time) (e : Hash * Tx) : list TxInclusionData.t :=
  match receipt_in_head node h e.1 with
  | Some _ => (recordTxInclusion [] e.2 (since now times e.1)).1
  | None => []
  end.

(** The entries that a pass counts as included. *)
Definition is_included (h : Header) (node : Node) (e : Hash * Tx) : bool :=
  match receipt_in_head node h e.1 with
  | Some _ => true
  | None => false
  end.

(** The number of blobs of the transactions of a list of entries. *)
Definition blob_total (l : list (Hash * Tx)) : Z :=
  fold_right (fun e total => len (tx_BlobHashes e.2) + total) 0 l.

(** The events of a run by kind. *)
Definition is_head (ev : Event) : bool :=
  match ev with
  | NewHead _ _ _ _ => true
  | NewTx _ _ => false
  end.

Definition is_blob_delivery (ev : Event) : bool :=
  match ev with
  | NewTx tx _ => tx_Type tx =? BlobTxType
  | NewHead _ _ _ _ => false
  end.

Definition is_signed_blob_delivery (ev : Event) : bool :=
  match ev with
  | NewTx tx _ =>
      (tx_Type tx =? BlobTxType) &&
      match tx_Sender tx with Some _ => true | None => false end
  | NewHead _ _ _ _ => false
  end.

(** The reading of the clock that comes with an event. *)
Definition event_time (ev : Event) : Time :=
  match ev with
  | NewTx _ now => now
  | NewHead _ _ now _ => now
  end.

(** The clock does not run backwards: every event comes with a reading that
    is at least the previous one, the first being at least [t]. *)
Fixpoint monotone_clock (t : Time) (evs : list Event) : Prop :=
  match evs with
  | [] => True
  | ev :: evs' => t <= event_time ev /\ monotone_clock (event_time ev) evs'
  end.

(** A [float64] that is zero, a positive number or positive infinity. *)
Definition positive_sign (x : float64) : bool :=
  match x with
  | S754_zero false | S754_finite false _ _ | S754_infinity false => true
  | _ => false
  end.

(** [0 <= x] on [float64]. *)
Definition float64_nonneg (x : float64) : bool := SFleb float64_zero x.

(** * The contract calls of [core/mevcommit/contracts.go] and the bidder
    calls of the [mevcommit] package

    Both files talk to the outside: the file system, a contract on the
    chain, a gRPC server, the standard output. A function is a computation
    that performs effects one after the other; the answer to an effect is
    given by a world that may look at every effect performed before, so that
    nothing is assumed about what the outside answers. A computation can
    also panic. *)

(** What a Go function returns as [(value, nil)] or as [(nil, err)]. *)
Inductive Result (A : Type) :=
| Ok (a : A)
| Err (e : string).
Arguments Ok {A} a.
Arguments Err {A} e.

(** A computation over the effects [E]: from the effects performed so far to
    a value, or [None] for a panic, and the effects performed then. *)
Definition Comp (E A : Type) : Type := list E -> option A * list E.

Definition ret {E A} (a : A) : Comp E A := fun tr => (Some a, tr).

Definition bind {E A B} (m : Comp E A) (k : A -> Comp E B) : Comp E B :=
  fun tr =>
    match m tr with
    | (Some a, tr') => k a tr'
    | (None, tr') => (None, tr')
    end.

Definition panic {E A} : Comp E A := fun tr => (None, tr).

(** An effect whose answer [answer] may depend on the effects before it. *)
Definition perform {E A} (e : E) (answer : list E -> A) : Comp E A :=
  fun tr => (Some (answer tr), tr ++ [e]).

Notation "x <- m ;; k" := (bind m (fun x => k))
  (at level 100, m at next level, right associativity).

Module Contracts.

(** The elements of the [[]interface{}] that a contract call fills: a
    [big.Int], an address, or a value of another type. *)
Inductive Value :=
| VBigInt (z : Z)
| VAddress (a : Address)
| VOther (tag : N).

(** An [abi.ABI]: the zero value [abi.ABI{}], or what [abi.JSON] made of the
    text [data]. *)
Inductive ABI :=
| ZeroABI
| ParsedABI (data : list byte).

(** The part of [bind.TransactOpts] that the file sets or hands on. *)
Record TransactOpts := mkOpts {
  opts_From : Address;
  opts_Value : option Z
}.

(** [AuthAcct] is declared elsewhere in the package; the file uses its
    fields [Auth], a pointer to the options of a transaction, and
    [Address]. *)
Record AuthAcct := mkAcct {
  Auth : TransactOpts;
  acct_Address : Address
}.

(** The receipt that [bind.WaitMined] returns, as far as it is read. *)
Record MinedReceipt := mkMined {
  Status : Z
}.

Inductive Effect :=
| ReadFile (path : string)
| Call (contract : Address) (abi : ABI) (method : string) (params : list Value)
| Transact (opts : TransactOpts) (contract : Address) (abi : ABI)
    (method : string) (params : list Value)
| WaitMined (tx : Tx)
| LogPrintln (line : string)
| FmtPrintln (line : string).

(** The answers of the outside. [os_ReadFile] returns the bytes read and the
    error; [abi_JSON] says whether a text is the JSON of an ABI;
    [contract_Call] returns the slice of results as the call leaves it and
    the error. *)
Class World := {
  os_ReadFile : list Effect -> string -> list byte * option string;
  abi_JSON : list byte -> option string;
  contract_Call :
    list Effect -> Address -> ABI -> string -> list Value ->
    list Value * option string;
  contract_Transact :
    list Effect -> TransactOpts -> Address -> ABI -> string -> list Value ->
    Result Tx;
  bind_WaitMined : list Effect -> Tx -> Result MinedReceipt
}.

(** [common.HexToAddress] of the three address constants. *)
Definition bidderRegistryAddress : Address :=
  0x7ffa86fF89489Bca72Fec2a978e33f9870B2Bd25%N.
Definition blockTrackerAddress : Address :=
  0x2eEbF31f5c932D51556E70235FB98bB2237d065c%N.
Definition preConfCommitmentStoreAddress : Address :=
  0xCAC68D97a56b19204Dd3dbDC103CB24D47A825A3%N.

Section Functions.
Context `{World}.

Definition logPrintln (line : string) : Comp Effect unit :=
  perform (LogPrintln line) (fun _ => tt).

Definition fmtPrintln (line : string) : Comp Effect unit :=
  perform (FmtPrintln line) (fun _ => tt).

(** [if err != nil { log.Println(prefix, err) }]. *)
Definition log_error (prefix : string) (err : option string) : Comp Effect unit :=
  match err with
  | Some e => logPrintln (prefix +:+ e)
  | None => ret tt
  end.

(** [LoadABI]: both errors are logged, and the error returned is [nil]
    whatever happened. *)
Definition LoadABI (filePath : string) : Comp Effect (ABI * option string) :=
  r <- perform (ReadFile filePath) (fun tr => os_ReadFile tr filePath) ;;
  let '(data, err) := r in
  _ <- log_error "Failed to load ABI file: " err ;;
  let err := abi_JSON data in
  let parsedABI :=
    match err with
    | None => ParsedABI data
    | Some _ => ZeroABI
    end in
  _ <- log_error "Failed to load ABI file: " err ;;
  ret (parsedABI, None).

(** [bind.NewBoundContract(address, abi, ...).Call(nil, &results, method)]. *)
Definition call (contract : Address) (abi : ABI) (method : string)
    (params : list Value) : Comp Effect (list Value * option string) :=
  perform (Call contract abi method params)
          (fun tr => contract_Call tr contract abi method params).

Definition transact (opts : TransactOpts) (contract : Address) (abi : ABI)
    (method : string) (params : list Value) : Comp Effect (Result Tx) :=
  perform (Transact opts contract abi method params)
          (fun tr => contract_Transact tr opts contract abi method params).

Definition waitMined (tx : Tx) : Comp Effect (Result MinedReceipt) :=
  perform (WaitMined tx) (fun tr => bind_WaitMined tr tx).

(** [WindowHeight]: the value returned is a [big.Int] pointer, [None] when
    it is [nil], with the error, which is always [nil]. Indexing the empty
    slice panics. *)
Definition WindowHeight : Comp Effect (option Z * option string) :=
  r <- LoadABI "abi/BlockTracker.abi" ;;
  let '(blockTrackerABI, err) := r in
  _ <- log_error "Failed to load ABI file: " err ;;
  r <- call blockTrackerAddress blockTrackerABI "getCurrentWindow" [] ;;
  let '(currentWindowResult, err) := r in
  _ <- log_error "" err ;;
  match currentWindowResult with
  | [] => panic
  | VBigInt currentWindow :: _ => ret (Some currentWindow, None)
  | _ :: _ =>
      _ <- logPrintln ("Could not get current window " +:+ default "<nil>" err) ;;
      ret (None, None)
  end.

Definition GetMinDeposit : Comp Effect (Result Z) :=
  r <- LoadABI "abi/BidderRegistry.abi" ;;
  let '(bidderRegistryABI, err) := r in
  match err with
  | Some e => ret (Err ("failed to load ABI file: " +:+ e))
  | None =>
      r <- call bidderRegistryAddress bidderRegistryABI "minDeposit" [] ;;
      let '(minDepositResult, err) := r in
      match err with
      | Some e => ret (Err ("failed to call minDeposit function: " +:+ e))
      | None =>
          match minDepositResult with
          | [] => panic
          | VBigInt minDeposit :: _ => ret (Ok minDeposit)
          | _ :: _ => ret (Err "failed to convert minDeposit to *big.Int")
          end
      end
  end.

(** [DepositIntoWindow]. The account is reached through a pointer: the
    account as the function leaves it is returned with the result. *)
Definition DepositIntoWindow (depositWindow : Z) (authAcct : AuthAcct)
    : Comp Effect (Result Tx * AuthAcct) :=
  r <- LoadABI "abi/BidderRegistry.abi" ;;
  let '(bidderRegistryABI, err) := r in
  match err with
  | Some e => ret (Err ("failed to load ABI file: " +:+ e), authAcct)
  | None =>
      minDeposit <- GetMinDeposit ;;
      match minDeposit with
      | Err e => ret (Err ("failed to get minDeposit: " +:+ e), authAcct)
      | Ok minDeposit =>
          let authAcct :=
            mkAcct (mkOpts (opts_From (Auth authAcct)) (Some minDeposit))
                   (acct_Address authAcct) in
          tx <- transact (Auth authAcct) bidderRegistryAddress bidderRegistryABI
                  "depositForSpecificWindow" [VBigInt depositWindow] ;;
          match tx with
          | Err e => ret (Err ("failed to create transaction: " +:+ e), authAcct)
          | Ok tx =>
              receipt <- waitMined tx ;;
              match receipt with
              | Err e => ret (Err ("transaction mining error: " +:+ e), authAcct)
              | Ok receipt =>
                  if Status receipt =? 1 then
                    _ <- fmtPrintln "Transaction successful" ;;
                    ret (Ok tx, authAcct)
                  else ret (Err "transaction failed", authAcct)
              end
          end
      end
  end.

Definition GetDepositAmount (address : Address) (window : Z) : Comp Effect (Result Z) :=
  r <- LoadABI "abi/BidderRegistry.abi" ;;
  let '(bidderRegistryABI, err) := r in
  match err with
  | Some e => ret (Err ("failed to load ABI file: " +:+ e))
  | None =>
      r <- call bidderRegistryAddress bidderRegistryABI "minDeposit" [] ;;
      let '(depositResult, err) := r in
      match err with
      | Some e => ret (Err ("failed to call getDeposit function: " +:+ e))
      | None =>
          match depositResult with
          | [] => panic
          | VBigInt depositAmount :: _ => ret (Ok depositAmount)
          | _ :: _ => ret (Err "failed to convert deposit amount to *big.Int")
          end
      end
  end.

Definition WithdrawFromWindow (authAcct : AuthAcct) (window : Z)
    : Comp Effect (Result Tx) :=
  r <- LoadABI "abi/BidderRegistry.abi" ;;
  let '(bidderRegistryABI, err) := r in
  match err with
  | Some e => ret (Err ("failed to load ABI file: " +:+ e))
  | None =>
      withdrawalTx <-
        transact (Auth authAcct) bidderRegistryAddress bidderRegistryABI
          "withdrawBidderAmountFromWindow"
          [VAddress (acct_Address authAcct); VBigInt window] ;;
      match withdrawalTx with
      | Err e => ret (Err ("failed to create withdrawal transaction: " +:+ e))
      | Ok withdrawalTx =>
          withdrawalReceipt <- waitMined withdrawalTx ;;
          match withdrawalReceipt with
          | Err e => ret (Err ("withdrawal transaction mining error: " +:+ e))
          | Ok withdrawalReceipt =>
              if Status withdrawalReceipt =? 1 then
                _ <- fmtPrintln "Withdrawal successful" ;;
                ret (Ok withdrawalTx)
              else ret (Err "withdrawal failed")
          end
      end
  end.

End Functions.

(** The trace [tr] holds a call of [Transact] on the bidder registry, made
    with the options [opts] for the method [method]. The call may have
    failed before anything was sent to the node, as it does with the zero
    ABI, which knows no method. *)
Definition transact_called (tr : list Effect) (opts : TransactOpts) (method : string)
    (params : list Value) : Prop :=
  exists abi, Transact opts bidderRegistryAddress abi method params ∈ tr.

(** The trace [tr] holds such a call, and the call returned the transaction
    [tx] and no error: [before] is the trace when the call was made, by
    which the world answers. *)
Definition transact_returned `{World} (tr : list Effect) (opts : TransactOpts)
    (method : string) (params : list Value) (tx : Tx) : Prop :=
  exists abi before after,
    tr = before ++ Transact opts bidderRegistryAddress abi method params :: after /\
    contract_Transact before opts bidderRegistryAddress abi method params = Ok tx.

(** The trace holds no call of [Transact]. *)
Definition nothing_sent (tr : list Effect) : bool :=
  forallb (fun e => match e with Transact _ _ _ _ _ => false | _ => true end) tr.

End Contracts.

Module BidderAPI.

(** The messages of the bidder API, declared in the generated protocol
    package, with the fields that the three methods read or set.
    [WindowNumber] of a response is a pointer to a wrapped [uint64] and may
    be [nil]. *)
Record DepositResponse := mkDepositResponse {
  Amount : string;
  WindowNumber : option Z
}.

Record DepositRequest := mkDepositRequest {
  request_Amount : string
}.

(** [WindowNumber] of a request is [wrapperspb.UInt64] of a [uint64]. *)
Record WithdrawRequest := mkWithdrawRequest {
  request_WindowNumber : Z
}.

(** A withdraw response is only printed; it is represented by its text. *)
Inductive Effect :=
| ClientGetMinDeposit
| ClientDeposit (request : DepositRequest)
| ClientWithdraw (request : WithdrawRequest)
| PrintfDeposited (windowNumber : Z)
| PrintfWithdraw (response : string).

(** The gRPC client [b.client]. *)
Class Client := {
  client_GetMinDeposit : list Effect -> Result DepositResponse;
  client_Deposit : list Effect -> DepositRequest -> Result DepositResponse;
  client_Withdraw : list Effect -> WithdrawRequest -> Result string
}.

Section Methods.
Context `{Client}.

Definition GetMinDeposit : Comp Effect (Result DepositResponse) :=
  response <- perform ClientGetMinDeposit client_GetMinDeposit ;;
  match response with
  | Err err => ret (Err err)
  | Ok response => ret (Ok response)
  end.

(** [DepositMinBidAmount]; [int64(...)] of a [uint64] is [wrap_int], and
    reading [Value] through a [nil] pointer panics. *)
Definition DepositMinBidAmount : Comp Effect (Result Z) :=
  minDepositResponse <- GetMinDeposit ;;
  match minDepositResponse with
  | Err err => ret (Err ("failed to get minimum deposit: " +:+ err))
  | Ok minDepositResponse =>
      let minDepositAmount := Amount minDepositResponse in
      let depositRequest := mkDepositRequest minDepositAmount in
      response <-
        perform (ClientDeposit depositRequest)
                (fun tr => client_Deposit tr depositRequest) ;;
      match response with
      | Err err => ret (Err ("failed to deposit funds: " +:+ err))
      | Ok response =>
          match WindowNumber response with
          | None => panic
          | Some value =>
              let windowNumber := wrap_int value in
              _ <- perform (PrintfDeposited windowNumber) (fun _ => tt) ;;
              ret (Ok windowNumber)
          end
      end
  end.

(** [WithdrawFunds]; the result is the error, [None] for [nil], and
    [uint64(...)] of an [int64] is [Uint64]. *)
Definition WithdrawFunds (windowNumber : Z) : Comp Effect (option string) :=
  let withdrawRequest := mkWithdrawRequest (Uint64 windowNumber) in
  response <-
    perform (ClientWithdraw withdrawRequest)
            (fun tr => client_Withdraw tr withdrawRequest) ;;
  match response with
  | Err err => ret (Some ("failed to withdraw funds: " +:+ err))
  | Ok response =>
      _ <- perform (PrintfWithdraw response) (fun _ => tt) ;;
      ret None
  end.

End Methods.

End BidderAPI.

(** ** Worlds for the examples *)

(** A world in which the ABI files are present, the minimum deposit is 7,
    transaction A is what [Transact] builds, and it is mined with status 1. *)
Definition kind_world : Contracts.World :=
  {| Contracts.os_ReadFile := fun _ _ => ([x5b; x5d]%byte, None);
     Contracts.abi_JSON := fun _ => None;
     Contracts.contract_Call := fun _ _ _ _ _ => ([Contracts.VBigInt 7], None);
     Contracts.contract_Transact := fun _ _ _ _ _ _ => Ok tx_A;
     Contracts.bind_WaitMined := fun _ _ => Ok (Contracts.mkMined 1) |}.

(** A world without files, in which every contract call fails and leaves
    the result slice empty. *)
Definition failing_world : Contracts.World :=
  {| Contracts.os_ReadFile := fun _ _ => ([], Some "no such file");
     Contracts.abi_JSON := fun _ => Some "EOF";
     Contracts.contract_Call := fun _ _ _ _ _ => ([], Some "no contract code");
     Contracts.contract_Transact := fun _ _ _ _ _ _ => Err "no contract code";
     Contracts.bind_WaitMined := fun _ _ => Err "timeout" |}.

Definition account_X : Contracts.AuthAcct :=
  Contracts.mkAcct (Contracts.mkOpts sender_X None) sender_X.

(** A server whose minimum deposit is [1000] and which opens the window
    [window] for a deposit. *)
Definition server (window : Z) : BidderAPI.Client :=
  {| BidderAPI.client_GetMinDeposit := fun _ =>
       Ok (BidderAPI.mkDepositResponse "1000" None);
     BidderAPI.client_Deposit := fun _ request =>
       Ok (BidderAPI.mkDepositResponse (BidderAPI.request_Amount request) (Some window));
     BidderAPI.client_Withdraw := fun _ _ => Ok "withdrawn" |}.

(** * The data folder through [encoding/json]

    [saveDataToFile] and [loadDataFromFile] hand a slice to
    [json.Encoder.Encode] and to [json.Unmarshal]. In [Disk] above a file is
    represented by the slice it encodes; here the JSON text stands between
    the slice and the file, so that what the codec refuses or changes is
    visible. *)

Module Persist.

(** Modelled from the spec: the JSON codec is no code of the repository. The
    spec fixes the persisted shape, one JSON array of objects with the
    fields of the record; what a field is written as and read from follows
    the documentation of [encoding/json] and of go-ethereum's [common]
    package. A text is kept by its syntax, and a token by what it spells:
    - [Number z] is the integer literal of [z], written for a [uint64] or an
      [int];
    - [Real f] is the number literal written for the finite [float64] [f],
      the shortest decimal that reads back as [f];
    - [Text s] is a JSON string that spells the bytes [s];
    - [HexText width n] is the JSON string made of [0x] and [2 * width]
      hexadecimal digits that spell [n], the text form of a [common.Hash]
      ([width] 32) and of a [common.Address] ([width] 20);
    - [InstantText t] is the JSON string that holds the rendering of the
      instant [t], which [TxMetricsData.TxTime] stands for. *)
Inductive Token :=
| Number (z : Z)
| Real (f : float64)
| Text (s : list byte)
| HexText (width : nat) (n : N)
| InstantText (t : Time).

(** A JSON object: its members in the order of the text. *)
Definition Object : Type := list (string * Token).

(** The text that [Encode] writes for a slice: [null] for the nil slice,
    an array of objects otherwise. *)
Inductive Document :=
| Null
| Array (objects : list Object).

(** A file of the data folder: it does not exist, it holds no byte, or it
    holds a JSON text. *)
Inductive File :=
| Missing
| Empty
| Holds (doc : Document).

(** Modelled from the spec: what [encoding/json] writes for a value of each
    field type. A [float64] that is NaN or an infinity is an
    [UnsupportedValueError]; a string is coerced to valid UTF-8, each byte
    that is not part of a well-formed sequence being replaced by the
    replacement character U+FFFD, whose encoding is [EF BF BD]. *)
Definition encode_float64 (f : float64) : option Token :=
  match f with
  | S754_nan | S754_infinity _ => None
  | _ => Some (Real f)
  end.

Fixpoint coerce (s : list byte) : list byte :=
  let replacement := [xef; xbf; xbd]%byte in
  match s with
  | [] => []
  | c :: s1 =>
      if Geth.in_range 0 127 c then c :: coerce s1
      else
        match Geth.leading c with
        | Some (1%nat, lo, hi) =>
            match s1 with
            | c1 :: s2 =>
                if Geth.in_range lo hi c1 then c :: c1 :: coerce s2
                else replacement ++ coerce s1
            | _ => replacement ++ coerce s1
            end
        | Some (2%nat, lo, hi) =>
            match s1 with
            | c1 :: c2 :: s3 =>
                if Geth.in_range lo hi c1 && Geth.continuation c2
                then c :: c1 :: c2 :: coerce s3
                else replacement ++ coerce s1
            | _ => replacement ++ coerce s1
            end
        | Some (3%nat, lo, hi) =>
            match s1 with
            | c1 :: c2 :: c3 :: s4 =>
                if Geth.in_range lo hi c1 && Geth.continuation c2 && Geth.continuation c3
                then c :: c1 :: c2 :: c3 :: coerce s4
                else replacement ++ coerce s1
            | _ => replacement ++ coerce s1
            end
        | _ => replacement ++ coerce s1
        end
  end.

Definition encode_string (s : list byte) : Token := Text (coerce s).

(** Modelled from the spec: what [json.Unmarshal] stores in a field of each
    type. A key that is absent leaves the zero value of the field; a number
    that does not fit the integer type, a hexadecimal text of another
    length, and a token of another kind than the field takes are errors. An
    integer literal is read into a [float64] field by rounding. (A number
    written for a [float64] is not read into an integer field; the library
    accepts such a literal when it has no fraction and no exponent, and no
    file of the program is read into another type than it was written
    from.) *)
Definition decode_uint64 (m : option Token) : option Z :=
  match m with
  | None => Some 0
  | Some (Number z) => if (0 <=? z) && (z <? 2 ^ 64) then Some z else None
  | Some _ => None
  end.

Definition decode_int (m : option Token) : option Z :=
  match m with
  | None => Some 0
  | Some (Number z) => if (- 2 ^ 63 <=? z) && (z <? 2 ^ 63) then Some z else None
  | Some _ => None
  end.

Definition decode_float64 (m : option Token) : option float64 :=
  match m with
  | None => Some float64_zero
  | Some (Real f) => Some f
  | Some (Number z) => Some (float64_of_Z z)
  | Some _ => None
  end.

Definition decode_string (m : option Token) : option (list byte) :=
  match m with
  | None => Some []
  | Some (Text s) => Some s
  | Some _ => None
  end.

Definition decode_hex (width : nat) (m : option Token) : option N :=
  match m with
  | None => Some 0%N
  | Some (HexText w n) =>
      if bool_decide (w = width) && (n <? 256 ^ N.of_nat width)%N then Some n else None
  | Some _ => None
  end.

Definition decode_instant (m : option Token) : option Time :=
  match m with
  | None => Some 0
  | Some (InstantText t) => Some t
  | Some _ => None
  end.

(** The member of an object for a key; of two members with one key the
    later is read. *)
Definition member (key : string) (o : Object) : option Token :=
  fold_left (fun found kv => if String.eqb kv.1 key then Some kv.2 else found) o None.

(** Modelled from the spec: what the codec does with one record of a type,
    the object written for it, or [None] for an error, and the record read
    from an object. The object of a record has one member per field, under
    the name of the field and in the order of the struct, since the structs
    carry no tag. *)
Class Codec (T : Type) := {
  encode : T -> option Object;
  decode : Object -> option T
}.

#[export] Instance TxData_codec : Codec TxData.t := {|
  encode r :=
    blobGasFeeCapGwei ← encode_float64 (TxData.BlobGasFeeCapGwei r);
    gasFeeCapGwei ← encode_float64 (TxData.GasFeeCapGwei r);
    gasTipCapGwei ← encode_float64 (TxData.GasTipCapGwei r);
    Some [("TxHash", HexText 32 (TxData.TxHash r));
          ("BlobGasFeeCapGwei", blobGasFeeCapGwei);
          ("BlobGas", Number (TxData.BlobGas r));
          ("BlobCount", Number (TxData.BlobCount r));
          ("GasFeeCapGwei", gasFeeCapGwei);
          ("GasTipCapGwei", gasTipCapGwei);
          ("Gas", Number (TxData.Gas r));
          ("Account", HexText 20 (TxData.Account r))];
  decode o :=
    txHash ← decode_hex 32 (member "TxHash" o);
    blobGasFeeCapGwei ← decode_float64 (member "BlobGasFeeCapGwei" o);
    blobGas ← decode_uint64 (member "BlobGas" o);
    blobCount ← decode_int (member "BlobCount" o);
    gasFeeCapGwei ← decode_float64 (member "GasFeeCapGwei" o);
    gasTipCapGwei ← decode_float64 (member "GasTipCapGwei" o);
    gas ← decode_uint64 (member "Gas" o);
    account ← decode_hex 20 (member "Account" o);
    Some (TxData.mk txHash blobGasFeeCapGwei blobGas blobCount gasFeeCapGwei
                    gasTipCapGwei gas account)
|}.

#[export] Instance BlockData_codec : Codec BlockData.t := {|
  encode r :=
    baseFeeGwei ← encode_float64 (BlockData.BaseFeeGwei r);
    Some [("BlockHash", HexText 32 (BlockData.BlockHash r));
          ("BlockNumber", Number (BlockData.BlockNumber r));
          ("BlockTime", Number (BlockData.BlockTime r));
          ("BlobBaseFeeWei", Number (BlockData.BlobBaseFeeWei r));
          ("BaseFeeGwei", baseFeeGwei);
          ("Builder", encode_string (BlockData.Builder r))];
  decode o :=
    blockHash ← decode_hex 32 (member "BlockHash" o);
    blockNumber ← decode_uint64 (member "BlockNumber" o);
    blockTime ← decode_uint64 (member "BlockTime" o);
    blobBaseFeeWei ← decode_uint64 (member "BlobBaseFeeWei" o);
    baseFeeGwei ← decode_float64 (member "BaseFeeGwei" o);
    builder ← decode_string (member "Builder" o);
    Some (BlockData.mk blockHash blockNumber blockTime blobBaseFeeWei baseFeeGwei builder)
|}.

#[export] Instance TxMetricsData_codec : Codec TxMetricsData.t := {|
  encode r :=
    Some [("Account", HexText 20 (TxMetricsData.Account r));
          ("BlobCount", Number (TxMetricsData.BlobCount r));
          ("BlobGasFeeCap", Number (TxMetricsData.BlobGasFeeCap r));
          ("TxTime", InstantText (TxMetricsData.TxTime r))];
  decode o :=
    account ← decode_hex 20 (member "Account" o);
    blobCount ← decode_int (member "BlobCount" o);
    blobGasFeeCap ← decode_uint64 (member "BlobGasFeeCap" o);
    txTime ← decode_instant (member "TxTime" o);
    Some (TxMetricsData.mk account blobCount blobGasFeeCap txTime)
|}.

#[export] Instance TxInclusionData_codec : Codec TxInclusionData.t := {|
  encode r :=
    inclusionDelay ← encode_float64 (TxInclusionData.InclusionDelay r);
    gasTipGwei ← encode_float64 (TxInclusionData.GasTipGwei r);
    Some [("Account", HexText 20 (TxInclusionData.Account r));
          ("BlobCount", Number (TxInclusionData.BlobCount r));
          ("InclusionDelay", inclusionDelay);
          ("GasTipGwei", gasTipGwei)];
  decode o :=
    account ← decode_hex 20 (member "Account" o);
    blobCount ← decode_int (member "BlobCount" o);
    inclusionDelay ← decode_float64 (member "InclusionDelay" o);
    gasTipGwei ← decode_float64 (member "GasTipGwei" o);
    Some (TxInclusionData.mk account blobCount inclusionDelay gasTipGwei)
|}.

(** Every element in turn; the first error is the result. *)
Fixpoint each {A B} (f : A -> option B) (l : list A) : option (list B) :=
  match l with
  | [] => Some []
  | a :: l' => b ← f a; bs ← each f l'; Some (b :: bs)
  end.


Definition Unmarshal `{Codec T} (doc : Document) : option (list T) :=
  match doc with
  | Null => Some []
  | Array objects => each decode objects
  end.


(** [loadDataFromFile]: the nil slice when [os.Stat] finds no file, the
    slice read from the text otherwise; [None] when [log.Fatal] has ended
    the process, as it does for a file without a byte, which is no JSON
    text. *)
Definition loadDataFromFile `{Codec T} (file : File) : option (list T) :=
  match file with
  | Missing => Some []
  | Empty => None
  | Holds doc => Unmarshal doc
  end.



#[export] Instance byte_eq_dec : EqDecision byte := Byte.byte_eq_dec.

(** A string that is valid UTF-8: the coercion leaves it as it is. *)
Definition is_valid_utf8 (s : list byte) : bool := bool_decide (coerce s = s).





End Persist.

Import (hints) Persist.



(** ** Proof automation *)

(** Case analysis on every guard of the loop body for the entry [e]. *)
Ltac body_cases e :=
  destruct e as [hash tx];
  unfold loop_body, retires, count_step, counters, txData,
    recordTxInclusion;
  unfold verdict; simpl;
  repeat case_match; simplify_eq/=; try done.

(** * Properties *)

(** ** The reference library *)

Lemma fakeExponential_fuel_sound fuel n d i out acc v :
  Geth.fakeExponential_fuel fuel n d i out acc = Some v ->
  Geth.fakeExponential_loop n d i out acc = v.
Proof.
  revert i out acc. induction fuel as [|fuel IH]; intros i out acc; simpl; [done|].
  rewrite Geth.fakeExponential_loop_equation_1.
  destruct (decide (0 < acc)%N); [apply IH | congruence].
Qed.

Lemma fakeExponential_eq factor n d :
  Geth.fakeExponential factor n d =
  (Geth.fakeExponential_loop n d 1 0 (factor * Npos d) / Npos d)%N.
Proof.
  unfold Geth.fakeExponential.
  destruct (Geth.fakeExponential_fuel _ _ _ _ _ _) as [v|] eqn:E; [|done].
  by rewrite (fakeExponential_fuel_sound _ _ _ _ _ _ _ E).
Qed.

(** With no excess blob gas the fee is the minimum of one wei. *)
Example CalcBlobFee_0 : Geth.CalcBlobFee 0 = 1.
Proof. reflexivity. Qed.

Example CalcBlobFee_10M : Geth.CalcBlobFee 10000000 = 19.
Proof. vm_compute. reflexivity. Qed.

(** ["a\xffb"] loses its middle byte; a two-byte sequence is kept. *)
Example ToValidUTF8_drop :
  Geth.ToValidUTF8 [x61; xff; x62; xc3; xa9; xc3]%byte = [x61; x62; xc3; xa9]%byte.
Proof. reflexivity. Qed.

(** ** Machine arithmetic *)

Lemma wrap_int_add_l a b : wrap_int (wrap_int a + b) = wrap_int (a + b).
Proof.
  unfold wrap_int. f_equal.
  replace ((a + 2 ^ 63) mod 2 ^ 64 - 2 ^ 63 + b + 2 ^ 63)
    with ((a + 2 ^ 63) mod 2 ^ 64 + b) by lia.
  rewrite Zplus_mod_idemp_l. f_equal. lia.
Qed.

Lemma wrap_int_add_swap c a b :
  wrap_int (wrap_int (c + a) + b) = wrap_int (wrap_int (c + b) + a).
Proof. rewrite !wrap_int_add_l. f_equal. lia. Qed.

Lemma wrap_int_small z : - 2 ^ 63 <= z < 2 ^ 63 -> wrap_int z = z.
Proof. intros Hz. unfold wrap_int. rewrite Z.mod_small; lia. Qed.

(** ** One iteration of the loop, component by component *)

Section Body.
Variables (h : Header) (node : Node) (now : Time).

Lemma body_fee p e :
  currBaseFee (p_state (loop_body h node now p e)) = currBaseFee (p_state p).
Proof. body_cases e. Qed.

Lemma body_pending p e :
  pendingTxs (p_state (loop_body h node now p e)) =
  if retires (currBaseFee (p_state p)) h node e
  then delete e.1 (pendingTxs (p_state p))
  else pendingTxs (p_state p).
Proof. body_cases e. Qed.

Lemma body_txTime p e :
  txTime (p_state (loop_body h node now p e)) =
  if retires (currBaseFee (p_state p)) h node e
  then delete e.1 (txTime (p_state p))
  else txTime (p_state p).
Proof. body_cases e. Qed.

Lemma body_counters p e :
  counters (loop_body h node now p e) =
  count_step (currBaseFee (p_state p)) h node (counters p) e.
Proof. body_cases e. Qed.

Lemma body_other_lists p e :
  txDataList (p_state (loop_body h node now p e)) = txDataList (p_state p) /\
  blockDataList (p_state (loop_body h node now p e)) = blockDataList (p_state p) /\
  txMetricsList (p_state (loop_body h node now p e)) = txMetricsList (p_state p).
Proof. body_cases e. Qed.

Lemma body_log p e :
  exists lines, log (p_state (loop_body h node now p e)) = log (p_state p) ++ lines.
Proof.
  body_cases e; try (eexists; reflexivity).
  all: exists []; by rewrite app_nil_r.
Qed.

End Body.

(** ** Folds that do not depend on the order *)

Lemma fold_left_permutation {A B} (f : B -> A -> B) (l1 l2 : list A) :
  (forall b x y, f (f b x) y = f (f b y) x) ->
  l1 ≡ₚ l2 -> forall b, fold_left f l1 b = fold_left f l2 b.
Proof.
  intros Hf Hperm. induction Hperm as [|x l1 l2 _ IH|x y l|l1 l2 l3 _ IH1 _ IH2];
    intros b; simpl.
  - done.
  - apply IH.
  - by rewrite Hf.
  - by rewrite IH1.
Qed.

Section Sweep.
Context {A : Type}.
Variables (fee : Z) (h : Header) (node : Node).

Lemma sweep_cons e l (m : gmap Hash A) :
  sweep fee h node (e :: l) m =
  sweep fee h node l (if retires fee h node e then delete e.1 m else m).
Proof. done. Qed.

Lemma sweep_lookup_None l (m : gmap Hash A) k :
  m !! k = None -> sweep fee h node l m !! k = None.
Proof.
  revert m. induction l as [|e l IH]; intros m Hk; [done|].
  rewrite sweep_cons. apply IH. destruct (retires fee h node e); [|done].
  rewrite lookup_delete_None. by right.
Qed.

(** A retired entry is gone after the pass. *)
Lemma sweep_lookup_retired l (m : gmap Hash A) e :
  e ∈ l -> retires fee h node e = true -> sweep fee h node l m !! e.1 = None.
Proof.
  revert m. induction l as [|e' l IH]; intros m Hin Hret.
  - by apply elem_of_nil in Hin.
  - rewrite sweep_cons. apply elem_of_cons in Hin as [->|Hin].
    + rewrite Hret. apply sweep_lookup_None, lookup_delete_eq.
    + by apply IH.
Qed.

(** A key none of whose entries is retired keeps its value. *)
Lemma sweep_lookup_kept l (m : gmap Hash A) k :
  (forall e, e ∈ l -> e.1 = k -> retires fee h node e = false) ->
  sweep fee h node l m !! k = m !! k.
Proof.
  revert m. induction l as [|e l IH]; intros m Hkeep; [done|].
  rewrite sweep_cons, IH.
  - destruct (retires fee h node e) eqn:Hret; [|done].
    apply lookup_delete_ne. intros Heq.
    rewrite (Hkeep e) in Hret; [done|by left|done].
  - intros e' Hin. apply Hkeep. by right.
Qed.

Lemma sweep_permutation l1 l2 (m : gmap Hash A) :
  l1 ≡ₚ l2 -> sweep fee h node l1 m = sweep fee h node l2 m.
Proof.
  intros Hperm. unfold sweep. apply fold_left_permutation; [|done].
  intros b x y. destruct (retires fee h node x), (retires fee h node y); try done.
  apply delete_delete.
Qed.

End Sweep.

Lemma count_step_swap fee h node c x y :
  count_step fee h node (count_step fee h node c x) y =
  count_step fee h node (count_step fee h node c y) x.
Proof.
  destruct c as [[b v] vb]. unfold count_step.
  destruct (verdict fee h node x.1 x.2), (verdict fee h node y.1 y.2);
    try done.
  - by rewrite (wrap_int_add_swap b).
  - by rewrite (wrap_int_add_swap vb).
Qed.

(** ** The whole loop, component by component *)

Section Pass.
Variables (h : Header) (node : Node) (now : Time).

Lemma pass_fee l p :
  currBaseFee (p_state (fold_left (loop_body h node now) l p)) =
  currBaseFee (p_state p).
Proof.
  revert p. induction l as [|e l IH]; intros p; [done|].
  simpl. by rewrite IH, body_fee.
Qed.

Lemma pass_pending l p :
  pendingTxs (p_state (fold_left (loop_body h node now) l p)) =
  sweep (currBaseFee (p_state p)) h node l (pendingTxs (p_state p)).
Proof.
  revert p. induction l as [|e l IH]; intros p; [done|].
  simpl. by rewrite IH, body_fee, body_pending.
Qed.

Lemma pass_txTime l p :
  txTime (p_state (fold_left (loop_body h node now) l p)) =
  sweep (currBaseFee (p_state p)) h node l (txTime (p_state p)).
Proof.
  revert p. induction l as [|e l IH]; intros p; [done|].
  simpl. by rewrite IH, body_fee, body_txTime.
Qed.

Lemma pass_counters l p :
  counters (fold_left (loop_body h node now) l p) =
  fold_left (count_step (currBaseFee (p_state p)) h node) l (counters p).
Proof.
  revert p. induction l as [|e l IH]; intros p; [done|].
  simpl. by rewrite IH, body_fee, body_counters.
Qed.

Lemma pass_other_lists l p :
  txDataList (p_state (fold_left (loop_body h node now) l p)) = txDataList (p_state p) /\
  blockDataList (p_state (fold_left (loop_body h node now) l p)) = blockDataList (p_state p) /\
  txMetricsList (p_state (fold_left (loop_body h node now) l p)) = txMetricsList (p_state p).
Proof.
  revert p. induction l as [|e l IH]; intros p; [done|].
  simpl. destruct (IH (loop_body h node now p e)) as (-> & -> & ->).
  apply body_other_lists.
Qed.

Lemma pass_log l p :
  exists lines,
    log (p_state (fold_left (loop_body h node now) l p)) = log (p_state p) ++ lines.
Proof.
  revert p. induction l as [|e l IH]; intros p.
  - exists []. by rewrite app_nil_r.
  - simpl. destruct (IH (loop_body h node now p e)) as [l2 ->].
    destruct (body_log h node now p e) as [l1 ->].
    exists (l1 ++ l2). by rewrite app_assoc.
Qed.

End Pass.

(** ** The new-head case as a whole *)

Section Head.
Context `{Library}.
Variables (st : State) (h : Header) (node : Node) (now : Time).
Variable entries : list (Hash * Tx).

Lemma head_fee :
  currBaseFee (on_head st h node now entries) = next_base_fee st h.
Proof. unfold on_head, head_pass, reconcile. simpl. by rewrite pass_fee. Qed.

Lemma head_pending :
  pendingTxs (on_head st h node now entries) =
  sweep (next_base_fee st h) h node entries (pendingTxs st).
Proof. unfold on_head, head_pass, reconcile. simpl. by rewrite pass_pending. Qed.

Lemma head_txTime :
  txTime (on_head st h node now entries) =
  sweep (next_base_fee st h) h node entries (txTime st).
Proof. unfold on_head, head_pass, reconcile. simpl. by rewrite pass_txTime. Qed.

Lemma head_other_lists :
  txDataList (on_head st h node now entries) = txDataList st /\
  blockDataList (on_head st h node now entries) =
    blockDataList st ++ [block_record (next_base_fee st h) h] /\
  txMetricsList (on_head st h node now entries) = txMetricsList st.
Proof.
  unfold on_head, head_pass, reconcile. simpl.
  by destruct (pass_other_lists h node now entries (mkPass (record_block st h) 0 0 0))
    as (-> & -> & ->).
Qed.

Lemma head_counters :
  counters (head_pass st h node now entries) =
  fold_left (count_step (next_base_fee st h) h node) entries (0, 0, 0).
Proof. unfold head_pass, reconcile. by rewrite pass_counters. Qed.

End Head.

(** ** What the loop maintains *)

(** An entry of the map is met by a [range] over it, under its own key only. *)
Lemma entries_elem (m : gmap Hash Tx) (entries : list (Hash * Tx)) k t :
  entries ≡ₚ map_to_list m -> m !! k = Some t -> (k, t) ∈ entries.
Proof. intros -> Hk. by apply elem_of_map_to_list. Qed.

Lemma entries_key (m : gmap Hash Tx) (entries : list (Hash * Tx)) k t e :
  entries ≡ₚ map_to_list m -> m !! k = Some t -> e ∈ entries -> e.1 = k -> e = (k, t).
Proof.
  intros -> Hk He <-. destruct e as [k' t']. simpl in *.
  apply elem_of_map_to_list in He. congruence.
Qed.

(** Every pending transaction is a blob transaction stored under its hash. *)
Lemma reachable_pending `{Library} d st k t :
  reachable d st -> pendingTxs st !! k = Some t ->
  tx_Type t = BlobTxType /\ tx_Hash t = k.
Proof.
  intros Hreach. revert k t.
  induction Hreach as [|st tx now _ IH|st h node now entries _ IH Hperm]; intros k t Hk.
  - simpl in Hk. by rewrite lookup_empty in Hk.
  - unfold on_tx in Hk. destruct (tx_Type tx =? BlobTxType) eqn:Htype; [|by apply IH].
    destruct (txData tx), (recordTxMetrics _ _ _). simpl in Hk.
    destruct (decide (tx_Hash tx = k)) as [<-|Hne].
    + rewrite lookup_insert_eq in Hk. simplify_eq. split; [lia|done].
    + rewrite lookup_insert_ne in Hk by done. by apply IH.
  - rewrite head_pending in Hk. apply IH.
    destruct (pendingTxs st !! k) as [t'|] eqn:Hst.
    + destruct (decide (retires (next_base_fee st h) h node (k, t') = true)) as [Hret|Hkeep].
      * apply (sweep_lookup_retired _ _ _ entries (pendingTxs st)) in Hret;
          [simpl in Hret; congruence|]. by eapply entries_elem.
      * rewrite sweep_lookup_kept in Hk; [congruence|].
        intros e He Hkey. rewrite (entries_key _ _ _ _ _ Hperm Hst He Hkey).
        by destruct (retires _ _ _ _).
    + by rewrite sweep_lookup_None in Hk.
Qed.

(** The two maps always have the same keys. *)
Lemma reachable_txTime `{Library} d st k :
  reachable d st -> is_Some (txTime st !! k) <-> is_Some (pendingTxs st !! k).
Proof.
  intros Hreach. revert k.
  induction Hreach as [|st tx now _ IH|st h node now entries _ IH Hperm]; intros k.
  - simpl. by rewrite !lookup_empty.
  - unfold on_tx. destruct (tx_Type tx =? BlobTxType); [|by apply IH].
    destruct (txData tx), (recordTxMetrics _ _ _). simpl.
    destruct (decide (tx_Hash tx = k)) as [<-|Hne].
    + rewrite !lookup_insert_eq. by split; eauto.
    + rewrite !lookup_insert_ne by done. apply IH.
  - rewrite head_pending, head_txTime.
    destruct (pendingTxs st !! k) as [t'|] eqn:Hst.
    + destruct (decide (retires (next_base_fee st h) h node (k, t') = true)) as [Hret|Hkeep].
      * pose proof (entries_elem _ _ _ _ Hperm Hst) as Hin.
        pose proof (sweep_lookup_retired (next_base_fee st h) h node entries (pendingTxs st) _ Hin Hret) as H1.
        pose proof (sweep_lookup_retired (next_base_fee st h) h node entries (txTime st) _ Hin Hret) as H2.
        simpl in H1, H2. rewrite H1, H2. by split; intros [? ?].
      * rewrite !sweep_lookup_kept.
        -- apply IH.
        -- intros e He Hkey. rewrite (entries_key _ _ _ _ _ Hperm Hst He Hkey).
           by destruct (retires _ _ _ _).
        -- intros e He Hkey. rewrite (entries_key _ _ _ _ _ Hperm Hst He Hkey).
           by destruct (retires _ _ _ _).
    + assert (txTime st !! k = None) as Ht.
      { destruct (txTime st !! k) eqn:E; [|done].
        assert (is_Some (pendingTxs st !! k)) as [? ?] by (apply IH; eauto). congruence. }
      rewrite !sweep_lookup_None by done. by split; intros [? ?].
Qed.

(** * The claims *)

(** ** Receiving a pending transaction *)

(** What the case does with a blob transaction, whatever the state. *)
Lemma on_tx_blob st tx now :
  tx_Type tx = BlobTxType ->
  on_tx st tx now =
  {| currBaseFee := currBaseFee st;
     pendingTxs := <[tx_Hash tx := tx]> (pendingTxs st);
     txTime := <[tx_Hash tx := now]> (txTime st);
     txDataList := txDataList st ++ [(txData tx).1];
     blockDataList := blockDataList st;
     txMetricsList := (recordTxMetrics (txMetricsList st) tx now).1;
     txInclusionList := txInclusionList st;
     disk := save_txMetrics (recordTxMetrics (txMetricsList st) tx now).1
               (save_txData (txDataList st ++ [(txData tx).1]) (disk st));
     log := log st ++ (txData tx).2 ++ [LogReceivedTx (txData tx).1]
              ++ (recordTxMetrics (txMetricsList st) tx now).2 |}.
Proof.
  intros Htype. unfold on_tx. rewrite Htype, Z.eqb_refl, lookup_insert_eq. simpl.
  by destruct (txData tx), (recordTxMetrics _ _ _).
Qed.

Lemma on_tx_other st tx now : tx_Type tx <> BlobTxType -> on_tx st tx now = st.
Proof. intros Htype. unfold on_tx. by apply Z.eqb_neq in Htype as ->. Qed.

(** C1, as stated, fails: transaction A is received at instant 100 and again
    at instant 250. The second delivery replaces the timestamp 100 by 250 and
    appends a second record to each of the two submission collections. *)
Lemma C1_duplicate_is_recorded_again :
  pendingTxs state_A !! tx_Hash tx_A = Some tx_A /\
  txTime state_A !! tx_Hash tx_A = Some 100 /\
  txTime (on_tx state_A tx_A 250) !! tx_Hash tx_A = Some 250 /\
  len (txDataList state_A) = 1 /\
  len (txDataList (on_tx state_A tx_A 250)) = 2 /\
  len (txMetricsList state_A) = 1 /\
  len (txMetricsList (on_tx state_A tx_A 250)) = 2.
Proof. by vm_compute. Qed.

(** C1, amended: a blob transaction that is delivered again while it is
    pending leaves the pending set, the base fee, the block records and the
    inclusion records as they are; its timestamp is overwritten with the
    current time, a record is appended to the transaction data, the metrics
    receive what [recordTxMetrics] adds, and both files are rewritten. *)
Theorem C1_redelivery st tx now :
  tx_Type tx = BlobTxType ->
  pendingTxs st !! tx_Hash tx = Some tx ->
  pendingTxs (on_tx st tx now) = pendingTxs st /\
  currBaseFee (on_tx st tx now) = currBaseFee st /\
  blockDataList (on_tx st tx now) = blockDataList st /\
  txInclusionList (on_tx st tx now) = txInclusionList st /\
  txTime (on_tx st tx now) = <[tx_Hash tx := now]> (txTime st) /\
  txDataList (on_tx st tx now) = txDataList st ++ [(txData tx).1] /\
  txMetricsList (on_tx st tx now) = (recordTxMetrics (txMetricsList st) tx now).1 /\
  txDataFile (disk (on_tx st tx now)) = Some (txDataList st ++ [(txData tx).1]) /\
  txMetricsFile (disk (on_tx st tx now)) =
    Some (recordTxMetrics (txMetricsList st) tx now).1.
Proof.
  intros Htype Hpending. rewrite (on_tx_blob _ _ _ Htype). simpl.
  split; [by apply insert_id|done].
Qed.

Lemma C1_redelivery_witness :
  pendingTxs (on_tx state_A tx_A 250) = pendingTxs state_A /\
  currBaseFee (on_tx state_A tx_A 250) = currBaseFee state_A /\
  blockDataList (on_tx state_A tx_A 250) = blockDataList state_A /\
  txInclusionList (on_tx state_A tx_A 250) = txInclusionList state_A /\
  txTime (on_tx state_A tx_A 250) = <[tx_Hash tx_A := 250]> (txTime state_A) /\
  txDataList (on_tx state_A tx_A 250) = txDataList state_A ++ [(txData tx_A).1] /\
  txMetricsList (on_tx state_A tx_A 250) =
    (recordTxMetrics (txMetricsList state_A) tx_A 250).1 /\
  txDataFile (disk (on_tx state_A tx_A 250)) =
    Some (txDataList state_A ++ [(txData tx_A).1]) /\
  txMetricsFile (disk (on_tx state_A tx_A 250)) =
    Some (recordTxMetrics (txMetricsList state_A) tx_A 250).1.
Proof. apply (C1_redelivery state_A tx_A 250); reflexivity. Defined.

(** C6: in a state of the loop, a delivered transaction is stored in the
    pending set exactly when it is of the blob type; a transaction of another
    type leaves the whole state, with its four collections and its files,
    untouched; and whatever is pending is of the blob type. *)
Theorem C6_only_blob_transactions `{Library} d st tx now :
  reachable d st ->
  (pendingTxs (on_tx st tx now) !! tx_Hash tx = Some tx <-> tx_Type tx = BlobTxType) /\
  (tx_Type tx <> BlobTxType -> on_tx st tx now = st) /\
  (forall k t, pendingTxs (on_tx st tx now) !! k = Some t -> tx_Type t = BlobTxType).
Proof.
  intros Hreach. split; [split|split].
  - intros Hin. destruct (decide (tx_Type tx = BlobTxType)) as [|Hother]; [done|].
    rewrite on_tx_other in Hin by done.
    by destruct (reachable_pending d st _ _ Hreach Hin).
  - intros Htype. rewrite (on_tx_blob _ _ _ Htype). simpl. apply lookup_insert_eq.
  - apply on_tx_other.
  - intros k t Hk.
    by destruct (reachable_pending d _ _ _ (reach_tx d st tx now Hreach) Hk).
Qed.

Lemma C6_only_blob_transactions_witness :
  (pendingTxs (on_tx state_A tx_plain 120) !! tx_Hash tx_plain = Some tx_plain <->
   tx_Type tx_plain = BlobTxType) /\
  (tx_Type tx_plain <> BlobTxType -> on_tx state_A tx_plain 120 = state_A) /\
  (forall k t, pendingTxs (on_tx state_A tx_plain 120) !! k = Some t ->
               tx_Type t = BlobTxType).
Proof.
  apply (C6_only_blob_transactions empty_disk state_A tx_plain 120).
  apply reach_tx, reach_initial.
Defined.

(** C10: a blob transaction whose sender cannot be recovered is stored as
    pending; the transaction data receive the zero record, the metrics
    receive nothing, and both are saved that way. *)
Theorem C10_unrecoverable_sender st tx now :
  tx_Type tx = BlobTxType ->
  tx_Sender tx = None ->
  pendingTxs (on_tx st tx now) !! tx_Hash tx = Some tx /\
  txDataList (on_tx st tx now) = txDataList st ++ [TxData.zero] /\
  txMetricsList (on_tx st tx now) = txMetricsList st /\
  txDataFile (disk (on_tx st tx now)) = Some (txDataList st ++ [TxData.zero]) /\
  txMetricsFile (disk (on_tx st tx now)) = Some (txMetricsList st).
Proof.
  intros Htype Hsender. rewrite (on_tx_blob _ _ _ Htype).
  unfold txData, recordTxMetrics. rewrite Hsender. simpl.
  split; [apply lookup_insert_eq|done].
Qed.

Lemma C10_unrecoverable_sender_witness :
  pendingTxs (on_tx state_A tx_unsigned 130) !! tx_Hash tx_unsigned = Some tx_unsigned /\
  txDataList (on_tx state_A tx_unsigned 130) = txDataList state_A ++ [TxData.zero] /\
  txMetricsList (on_tx state_A tx_unsigned 130) = txMetricsList state_A /\
  txDataFile (disk (on_tx state_A tx_unsigned 130)) =
    Some (txDataList state_A ++ [TxData.zero]) /\
  txMetricsFile (disk (on_tx state_A tx_unsigned 130)) = Some (txMetricsList state_A).
Proof. apply (C10_unrecoverable_sender state_A tx_unsigned 130); reflexivity. Defined.

(** ** Receiving a head: the block record *)

Lemma body_disk h node now p e :
  txDataFile (disk (p_state (loop_body h node now p e))) = txDataFile (disk (p_state p)) /\
  blockDataFile (disk (p_state (loop_body h node now p e))) = blockDataFile (disk (p_state p)) /\
  txMetricsFile (disk (p_state (loop_body h node now p e))) = txMetricsFile (disk (p_state p)).
Proof. body_cases e. Qed.

Lemma pass_disk h node now l p :
  txDataFile (disk (p_state (fold_left (loop_body h node now) l p))) =
    txDataFile (disk (p_state p)) /\
  blockDataFile (disk (p_state (fold_left (loop_body h node now) l p))) =
    blockDataFile (disk (p_state p)) /\
  txMetricsFile (disk (p_state (fold_left (loop_body h node now) l p))) =
    txMetricsFile (disk (p_state p)).
Proof.
  revert p. induction l as [|e l IH]; intros p; [done|].
  simpl. destruct (IH (loop_body h node now p e)) as (-> & -> & ->).
  apply body_disk.
Qed.





(** A head that is delivered without a base fee ends the process by a panic
    where the block record is built: the blob base fee has been updated
    from the excess blob gas of the head when that is present, and nothing
    else has happened; no record is appended, no file written, no line
    logged, and the pending set is as it was. *)
Theorem head_without_base_fee `{Library} st rh node now entries :
  rh_BaseFee rh = None ->
  exists st',
    head_case st rh node now entries = Panicked st' /\
    currBaseFee st' =
      match rh_ExcessBlobGas rh with
      | Some excess => CalcBlobFee excess
      | None => currBaseFee st
      end /\
    blockDataList st' = blockDataList st /\
    txInclusionList st' = txInclusionList st /\
    pendingTxs st' = pendingTxs st /\
    txTime st' = txTime st /\
    disk st' = disk st /\
    log st' = log st.
Proof.
  intros Hnil. unfold head_case, dereferenced. rewrite Hnil.
  by eexists.
Qed.

Lemma head_without_base_fee_witness :
  exists st',
    head_case state_A head_9_without_base_fee (node_without_receipt 5) 200
      [(tx_Hash tx_A, tx_A)] = Panicked st' /\
    currBaseFee st' =
      match rh_ExcessBlobGas head_9_without_base_fee with
      | Some excess => CalcBlobFee excess
      | None => currBaseFee state_A
      end /\
    blockDataList st' = blockDataList state_A /\
    txInclusionList st' = txInclusionList state_A /\
    pendingTxs st' = pendingTxs state_A /\
    txTime st' = txTime state_A /\
    disk st' = disk state_A /\
    log st' = log state_A.
Proof.
  apply (head_without_base_fee state_A head_9_without_base_fee (node_without_receipt 5) 200
           [(tx_Hash tx_A, tx_A)]).
  reflexivity.
Defined.

(** ** Receiving a head: the base fee *)

Lemma run_fee `{Library} evs st :
  currBaseFee (run st evs) = fee_after (currBaseFee st) evs.
Proof.
  revert st. induction evs as [|[tx now|h node now entries] evs IH]; intros st;
    [done| |]; unfold run in *; simpl; rewrite IH.
  - f_equal. unfold on_tx. destruct (tx_Type tx =? BlobTxType); [|done].
    by destruct (txData tx), (recordTxMetrics _ _ _).
  - rewrite head_fee. unfold next_base_fee. by destruct (h_ExcessBlobGas h).
Qed.

(** C7: the base fee is zero when the loop starts; a head that carries the
    excess-blob-gas field sets it to the formula applied to that field before
    its pass reads it, a head without the field and a pending transaction
    leave it as it is, and the pass itself does not change it, so that the
    viability counts of the pass are taken against it. Hence after any
    sequence of events it is the value that the specification describes. *)
Theorem C7_blob_base_fee `{Library} :
  (forall d, currBaseFee (initial d) = 0) /\
  (forall st h node now entries,
     currBaseFee (record_block st h) =
       match h_ExcessBlobGas h with
       | Some excess => CalcBlobFee excess
       | None => currBaseFee st
       end /\
     currBaseFee (p_state (head_pass st h node now entries)) =
       currBaseFee (record_block st h) /\
     currBaseFee (on_head st h node now entries) = currBaseFee (record_block st h) /\
     counters (head_pass st h node now entries) =
       fold_left (count_step (currBaseFee (record_block st h)) h node) entries (0, 0, 0)) /\
  (forall st tx now, currBaseFee (on_tx st tx now) = currBaseFee st) /\
  (forall d evs, currBaseFee (run (initial d) evs) = fee_after 0 evs).
Proof.
  split; [done|split; [|split]].
  - intros st h node now entries. split; [done|]. split; [|split].
    + unfold head_pass, reconcile. by rewrite pass_fee.
    + by rewrite head_fee.
    + apply head_counters.
  - intros st tx now. unfold on_tx. destruct (tx_Type tx =? BlobTxType); [|done].
    by destruct (txData tx), (recordTxMetrics _ _ _).
  - intros d evs. by rewrite run_fee.
Qed.

(** ** Receiving a head: the pass over the pending set *)

(** C5: two passes over the same entries in different orders produce the
    same six aggregates, and leave the same pending set and the same
    timestamps. *)
Theorem C5_order_independence `{Library} st h node now l1 l2 :
  l1 ≡ₚ l2 ->
  head_aggregates st h node now l1 = head_aggregates st h node now l2 /\
  pendingTxs (on_head st h node now l1) = pendingTxs (on_head st h node now l2) /\
  txTime (on_head st h node now l1) = txTime (on_head st h node now l2).
Proof.
  intros Hperm.
  assert (pendingTxs (p_state (head_pass st h node now l1)) =
          pendingTxs (p_state (head_pass st h node now l2))) as Hpending.
  { unfold head_pass, reconcile. rewrite !pass_pending. by apply sweep_permutation. }
  assert (counters (head_pass st h node now l1) =
          counters (head_pass st h node now l2)) as Hcount.
  { rewrite !head_counters.
    apply fold_left_permutation; [apply count_step_swap|done]. }
  split; [|split].
  - unfold head_aggregates, aggregates. rewrite Hpending.
    unfold counters in Hcount. by injection Hcount as -> -> ->.
  - rewrite !head_pending. by apply sweep_permutation.
  - rewrite !head_txTime. by apply sweep_permutation.
Qed.

Lemma C5_order_independence_witness :
  head_aggregates state_AB head_7 (node_without_receipt 5) 200
    [(tx_Hash tx_A, tx_A); (tx_Hash tx_B, tx_B)] =
  head_aggregates state_AB head_7 (node_without_receipt 5) 200
    [(tx_Hash tx_B, tx_B); (tx_Hash tx_A, tx_A)] /\
  pendingTxs (on_head state_AB head_7 (node_without_receipt 5) 200
    [(tx_Hash tx_A, tx_A); (tx_Hash tx_B, tx_B)]) =
  pendingTxs (on_head state_AB head_7 (node_without_receipt 5) 200
    [(tx_Hash tx_B, tx_B); (tx_Hash tx_A, tx_A)]) /\
  txTime (on_head state_AB head_7 (node_without_receipt 5) 200
    [(tx_Hash tx_A, tx_A); (tx_Hash tx_B, tx_B)]) =
  txTime (on_head state_AB head_7 (node_without_receipt 5) 200
    [(tx_Hash tx_B, tx_B); (tx_Hash tx_A, tx_A)]).
Proof.
  apply (C5_order_independence state_AB head_7 (node_without_receipt 5) 200).
  apply perm_swap.
Defined.

(** The fate of a pending entry in a pass: it is deleted from both maps when
    its verdict is terminal, and keeps its place and its timestamp
    otherwise. *)
Lemma head_entry_fate `{Library} st h node now entries hash tx :
  entries ≡ₚ map_to_list (pendingTxs st) ->
  pendingTxs st !! hash = Some tx ->
  if terminal (verdict (next_base_fee st h) h node hash tx)
  then pendingTxs (on_head st h node now entries) !! hash = None /\
       txTime (on_head st h node now entries) !! hash = None
  else pendingTxs (on_head st h node now entries) !! hash = Some tx /\
       txTime (on_head st h node now entries) !! hash = txTime st !! hash.
Proof.
  intros Hperm Hpending. rewrite head_pending, head_txTime.
  pose proof (entries_elem _ _ _ _ Hperm Hpending) as Hin.
  destruct (terminal _) eqn:Hverdict.
  - split; by apply (sweep_lookup_retired _ _ _ entries _ (hash, tx)).
  - assert (forall e, e ∈ entries -> e.1 = hash ->
                      retires (next_base_fee st h) h node e = false) as Hkeep.
    { intros e He Hkey. by rewrite (entries_key _ _ _ _ _ Hperm Hpending He Hkey). }
    rewrite !sweep_lookup_kept by done. by rewrite Hpending.
Qed.

(** C3, as stated, fails: transaction A is received, head 7 includes it, and
    the stream delivers A once more. The state reached holds A in the
    pending set while the log says that A was included and the inclusion
    record of A is in its collection. *)
Lemma C3_pending_again_after_inclusion :
  let st :=
    run (initial empty_disk)
      [NewTx tx_A 100;
       NewHead head_7 node_including_A 200 [(tx_Hash tx_A, tx_A)];
       NewTx tx_A 300] in
  reachable empty_disk st /\
  pendingTxs st !! tx_Hash tx_A = Some tx_A /\
  existsb (terminal_line (tx_Hash tx_A)) (log st) = true /\
  TxInclusionData.Account <$> txInclusionList st = [sender_X].
Proof.
  split; [|by vm_compute].
  unfold run. simpl. apply reach_tx, reach_head; [apply reach_tx, reach_initial|].
  by vm_compute.
Qed.

(** C3, amended: in the state that follows a pass, no hash that the pass
    classified as included or superseded is in the pending set, nor in the
    timestamps. The exclusion holds for that pass only: nothing remembers a
    retired hash, and a later delivery stores it again. *)
Theorem C3_retired_is_not_pending `{Library} st h node now entries hash tx :
  entries ≡ₚ map_to_list (pendingTxs st) ->
  pendingTxs st !! hash = Some tx ->
  terminal (verdict (next_base_fee st h) h node hash tx) = true ->
  pendingTxs (on_head st h node now entries) !! hash = None /\
  txTime (on_head st h node now entries) !! hash = None.
Proof.
  intros Hperm Hpending Hterminal.
  pose proof (head_entry_fate st h node now entries hash tx Hperm Hpending) as Hfate.
  by rewrite Hterminal in Hfate.
Qed.

Lemma C3_retired_is_not_pending_witness :
  pendingTxs (on_head state_A head_7 node_including_A 200 [(tx_Hash tx_A, tx_A)])
    !! tx_Hash tx_A = None /\
  txTime (on_head state_A head_7 node_including_A 200 [(tx_Hash tx_A, tx_A)])
    !! tx_Hash tx_A = None.
Proof.
  apply (C3_retired_is_not_pending state_A head_7 node_including_A 200
           [(tx_Hash tx_A, tx_A)] (tx_Hash tx_A) tx_A).
  - by vm_compute.
  - reflexivity.
  - reflexivity.
Defined.

(** One iteration on an entry that is superseded, or left for a failed
    lookup: no inclusion record, no count. *)
Lemma body_without_inclusion h node now p hash tx :
  receipt_in_head node h hash = None ->
  verdict (currBaseFee (p_state p)) h node hash tx <> Viable ->
  txInclusionList (p_state (loop_body h node now p (hash, tx))) =
    txInclusionList (p_state p) /\
  txInclusionFile (disk (p_state (loop_body h node now p (hash, tx)))) =
    txInclusionFile (disk (p_state p)) /\
  counters (loop_body h node now p (hash, tx)) = counters p.
Proof.
  unfold loop_body, verdict, txData, counters. intros -> Hverdict.
  repeat case_match; simplify_eq/=; done.
Qed.

(** C4, as stated, fails: head 7 contains transaction A, so that the nonce of
    its sender stands at 6, above the nonce 5 of A. The pass removes A and
    appends an inclusion record for it. *)
Lemma C4_included_with_nonce_exceeded :
  tx_Sender tx_A = Some sender_X /\
  NonceAtHash node_including_A sender_X (h_Hash head_7) = Some 6 /\
  tx_Nonce tx_A = 5 /\
  pendingTxs (on_head state_A head_7 node_including_A 200 [(tx_Hash tx_A, tx_A)])
    !! tx_Hash tx_A = None /\
  txInclusionList state_A = [] /\
  TxInclusionData.Account <$>
    txInclusionList (on_head state_A head_7 node_including_A 200 [(tx_Hash tx_A, tx_A)]) =
    [sender_X].
Proof. by vm_compute. Qed.

(** C4, amended: a pending transaction whose sender is recovered and whose
    sender's nonce at the head is above its own is removed by the pass,
    whatever the receipt lookup gave. Unless a receipt in the block of the
    head was found, it is classified superseded and its iteration adds no
    inclusion record and counts nothing; with such a receipt it is classified
    included and [recordTxInclusion] is applied to it. *)
Theorem C4_nonce_exceeded `{Library} st h node now entries hash tx acc currNonce :
  entries ≡ₚ map_to_list (pendingTxs st) ->
  pendingTxs st !! hash = Some tx ->
  tx_Sender tx = Some acc ->
  NonceAtHash node acc (h_Hash h) = Some currNonce ->
  tx_Nonce tx < currNonce ->
  pendingTxs (on_head st h node now entries) !! hash = None /\
  (receipt_in_head node h hash = None ->
     verdict (next_base_fee st h) h node hash tx = Superseded /\
     forall p,
       txInclusionList (p_state (loop_body h node now p (hash, tx))) =
         txInclusionList (p_state p) /\
       txInclusionFile (disk (p_state (loop_body h node now p (hash, tx)))) =
         txInclusionFile (disk (p_state p)) /\
       counters (loop_body h node now p (hash, tx)) = counters p) /\
  (forall r, receipt_in_head node h hash = Some r ->
     verdict (next_base_fee st h) h node hash tx = Included /\
     forall p,
       txInclusionList (p_state (loop_body h node now p (hash, tx))) =
         (recordTxInclusion (txInclusionList (p_state p)) tx
            (since now (txTime (p_state p)) hash)).1).
Proof.
  intros Hperm Hpending Hsender Hnonce Hlt.
  assert (forall fee, terminal (verdict fee h node hash tx) = true) as Hterminal.
  { intros fee. unfold verdict. rewrite Hsender, Hnonce.
    apply Z.ltb_lt in Hlt as ->. by destruct (receipt_in_head node h hash). }
  split; [|split].
  - pose proof (head_entry_fate st h node now entries hash tx Hperm Hpending) as Hfate.
    rewrite Hterminal in Hfate. apply Hfate.
  - intros Hreceipt.
    assert (forall fee, verdict fee h node hash tx = Superseded) as Hsuperseded.
    { intros fee. unfold verdict. rewrite Hreceipt, Hsender, Hnonce.
      by apply Z.ltb_lt in Hlt as ->. }
    split; [done|]. intros p. apply body_without_inclusion; [done|].
    by rewrite Hsuperseded.
  - intros r Hreceipt. split.
    + unfold verdict. by rewrite Hreceipt.
    + intros p. unfold loop_body. rewrite Hreceipt.
      by destruct (txData tx), (recordTxInclusion _ _ _).
Qed.

Lemma C4_nonce_exceeded_witness :
  pendingTxs (on_head state_A head_7 (node_without_receipt 6) 200 [(tx_Hash tx_A, tx_A)])
    !! tx_Hash tx_A = None /\
  (receipt_in_head (node_without_receipt 6) head_7 (tx_Hash tx_A) = None ->
     verdict (next_base_fee state_A head_7) head_7 (node_without_receipt 6)
       (tx_Hash tx_A) tx_A = Superseded /\
     forall p,
       txInclusionList
         (p_state (loop_body head_7 (node_without_receipt 6) 200 p (tx_Hash tx_A, tx_A))) =
         txInclusionList (p_state p) /\
       txInclusionFile
         (disk (p_state (loop_body head_7 (node_without_receipt 6) 200 p (tx_Hash tx_A, tx_A)))) =
         txInclusionFile (disk (p_state p)) /\
       counters (loop_body head_7 (node_without_receipt 6) 200 p (tx_Hash tx_A, tx_A)) =
         counters p) /\
  (forall r, receipt_in_head (node_without_receipt 6) head_7 (tx_Hash tx_A) = Some r ->
     verdict (next_base_fee state_A head_7) head_7 (node_without_receipt 6)
       (tx_Hash tx_A) tx_A = Included /\
     forall p,
       txInclusionList
         (p_state (loop_body head_7 (node_without_receipt 6) 200 p (tx_Hash tx_A, tx_A))) =
         (recordTxInclusion (txInclusionList (p_state p)) tx_A
            (since 200 (txTime (p_state p)) (tx_Hash tx_A))).1).
Proof.
  apply (C4_nonce_exceeded state_A head_7 (node_without_receipt 6) 200
           [(tx_Hash tx_A, tx_A)] (tx_Hash tx_A) tx_A sender_X 6).
  - by vm_compute.
  - reflexivity.
  - reflexivity.
  - reflexivity.
  - reflexivity.
Defined.

(** C8, as stated, fails: the node has no receipt for transaction A, so the
    receipt lookup fails, and the nonce of the sender stands at 6. The pass
    classifies A as superseded and removes it. *)
Lemma C8_superseded_without_receipt :
  TransactionReceipt (node_without_receipt 6) (tx_Hash tx_A) = None /\
  pendingTxs state_A !! tx_Hash tx_A = Some tx_A /\
  verdict (next_base_fee state_A head_7) head_7 (node_without_receipt 6)
    (tx_Hash tx_A) tx_A = Superseded /\
  pendingTxs (on_head state_A head_7 (node_without_receipt 6) 200 [(tx_Hash tx_A, tx_A)])
    !! tx_Hash tx_A = None /\
  existsb (terminal_line (tx_Hash tx_A))
    (log (on_head state_A head_7 (node_without_receipt 6) 200 [(tx_Hash tx_A, tx_A)])) = true.
Proof. by vm_compute. Qed.

(** C8, amended: a pending transaction for which no receipt in the block of
    the head was found, and whose sender recovery or nonce lookup fails, is
    neither included nor superseded; it keeps its place in the pending set
    and its timestamp, and its iteration adds no inclusion record and counts
    nothing. A failed receipt lookup alone only rules out the verdict
    included: the transaction is then classified by its nonce. *)
Theorem C8_failed_lookup_stays_pending `{Library} st h node now entries hash tx :
  entries ≡ₚ map_to_list (pendingTxs st) ->
  pendingTxs st !! hash = Some tx ->
  receipt_in_head node h hash = None ->
  tx_Sender tx = None \/
    (exists acc, tx_Sender tx = Some acc /\ NonceAtHash node acc (h_Hash h) = None) ->
  terminal (verdict (next_base_fee st h) h node hash tx) = false /\
  pendingTxs (on_head st h node now entries) !! hash = Some tx /\
  txTime (on_head st h node now entries) !! hash = txTime st !! hash /\
  forall p,
    pendingTxs (p_state (loop_body h node now p (hash, tx))) = pendingTxs (p_state p) /\
    txTime (p_state (loop_body h node now p (hash, tx))) = txTime (p_state p) /\
    txInclusionList (p_state (loop_body h node now p (hash, tx))) =
      txInclusionList (p_state p) /\
    counters (loop_body h node now p (hash, tx)) = counters p.
Proof.
  intros Hperm Hpending Hreceipt Hfail.
  assert (forall fee, verdict fee h node hash tx = SenderUnknown \/
                      verdict fee h node hash tx = NonceUnknown) as Hverdict.
  { intros fee. unfold verdict. rewrite Hreceipt.
    destruct Hfail as [->|(acc & -> & ->)]; auto. }
  assert (forall fee, terminal (verdict fee h node hash tx) = false) as Hterminal.
  { intros fee. by destruct (Hverdict fee) as [->| ->]. }
  split; [done|].
  pose proof (head_entry_fate st h node now entries hash tx Hperm Hpending) as Hfate.
  rewrite Hterminal in Hfate. destruct Hfate as [-> ->].
  split; [done|]. split; [done|]. intros p.
  destruct (body_without_inclusion h node now p hash tx) as (-> & _ & ->);
    [done|by destruct (Hverdict (currBaseFee (p_state p))) as [->| ->]|].
  rewrite body_pending, body_txTime. unfold retires. cbn [fst snd].
  by rewrite Hterminal.
Qed.

Lemma C8_failed_lookup_stays_pending_witness :
  terminal (verdict (next_base_fee state_A head_7) head_7 node_without_nonce
    (tx_Hash tx_A) tx_A) = false /\
  pendingTxs (on_head state_A head_7 node_without_nonce 200 [(tx_Hash tx_A, tx_A)])
    !! tx_Hash tx_A = Some tx_A /\
  txTime (on_head state_A head_7 node_without_nonce 200 [(tx_Hash tx_A, tx_A)])
    !! tx_Hash tx_A = txTime state_A !! tx_Hash tx_A /\
  forall p,
    pendingTxs (p_state (loop_body head_7 node_without_nonce 200 p (tx_Hash tx_A, tx_A))) =
      pendingTxs (p_state p) /\
    txTime (p_state (loop_body head_7 node_without_nonce 200 p (tx_Hash tx_A, tx_A))) =
      txTime (p_state p) /\
    txInclusionList (p_state (loop_body head_7 node_without_nonce 200 p (tx_Hash tx_A, tx_A))) =
      txInclusionList (p_state p) /\
    counters (loop_body head_7 node_without_nonce 200 p (tx_Hash tx_A, tx_A)) = counters p.
Proof.
  apply (C8_failed_lookup_stays_pending state_A head_7 node_without_nonce 200
           [(tx_Hash tx_A, tx_A)] (tx_Hash tx_A) tx_A).
  - by vm_compute.
  - reflexivity.
  - reflexivity.
  - right. exists sender_X. split; reflexivity.
Defined.

(** ** The invariant of the pending set *)

(** In every state of the loop, whatever is pending is a blob transaction
    stored under its own hash, and the timestamps have the keys of the
    pending set. *)
Theorem pending_set_invariant `{Library} d st :
  reachable d st ->
  (forall k t, pendingTxs st !! k = Some t -> tx_Type t = BlobTxType /\ tx_Hash t = k) /\
  (forall k, is_Some (txTime st !! k) <-> is_Some (pendingTxs st !! k)).
Proof.
  intros Hreach. split.
  - intros k t. by apply reachable_pending with d.
  - intros k. by apply reachable_txTime with d.
Qed.

Lemma pending_set_invariant_witness :
  (forall k t, pendingTxs state_AB !! k = Some t ->
               tx_Type t = BlobTxType /\ tx_Hash t = k) /\
  (forall k, is_Some (txTime state_AB !! k) <-> is_Some (pendingTxs state_AB !! k)).
Proof.
  apply (pending_set_invariant empty_disk state_AB).
  apply reach_tx, reach_tx, reach_initial.
Defined.

(** ** The scenarios of the specification *)

(** Transaction A (nonce 5, cap 10 gwei, two blobs) is pending; a head
    arrives with no receipt for A, the nonce of X at 5 and a base fee below
    8 gwei. A is counted as viable and stays pending. *)
Example scenario_pending_viable :
  currBaseFee (on_head state_A head_8 (node_without_receipt 5) 200 [(tx_Hash tx_A, tx_A)]) =
    7937191259 /\
  head_aggregates state_A head_8 (node_without_receipt 5) 200 [(tx_Hash tx_A, tx_A)] =
    mkAggregates 1 1 0 0 1 2 /\
  pendingTxs (on_head state_A head_8 (node_without_receipt 5) 200 [(tx_Hash tx_A, tx_A)])
    !! tx_Hash tx_A = Some tx_A.
Proof. by vm_compute. Qed.

(** The head contains A: A leaves the pending set, one inclusion record is
    appended, whose delay is the time since A was received (here a second
    and a half), and two blobs are counted as included. *)
Example scenario_included :
  pendingTxs (on_head state_A head_7 node_including_A 1500000100 [(tx_Hash tx_A, tx_A)])
    !! tx_Hash tx_A = None /\
  txInclusionList (on_head state_A head_7 node_including_A 1500000100 [(tx_Hash tx_A, tx_A)]) =
    [ {| TxInclusionData.Account := sender_X;
         TxInclusionData.BlobCount := 2;
         TxInclusionData.InclusionDelay := Seconds (1500000100 - 100);
         TxInclusionData.GasTipGwei := float64_of_Z 2 |} ] /\
  Seconds (1500000100 - 100) = S754_finite false 6755399441055744 (-52) /\
  head_aggregates state_A head_7 node_including_A 1500000100 [(tx_Hash tx_A, tx_A)] =
    mkAggregates 1 0 1 2 0 0.
Proof. by vm_compute. Qed.

(** The nonce of X is at 6 and there is no receipt for A: A leaves the
    pending set without an inclusion record, and no blob and no viable
    transaction is counted; the difference of the two sizes of the pending
    set, printed as the number of inclusions, is one. *)
Example scenario_superseded :
  pendingTxs (on_head state_A head_7 (node_without_receipt 6) 200 [(tx_Hash tx_A, tx_A)])
    !! tx_Hash tx_A = None /\
  txInclusionList (on_head state_A head_7 (node_without_receipt 6) 200 [(tx_Hash tx_A, tx_A)]) =
    [] /\
  head_aggregates state_A head_7 (node_without_receipt 6) 200 [(tx_Hash tx_A, tx_A)] =
    mkAggregates 1 0 1 0 0 0.
Proof. by vm_compute. Qed.

(** ** Persistence *)

Lemma body_inclusion_file h node now p e :
  loadDataFromFile (txInclusionFile (disk (p_state p))) = txInclusionList (p_state p) ->
  loadDataFromFile (txInclusionFile (disk (p_state (loop_body h node now p e)))) =
    txInclusionList (p_state (loop_body h node now p e)).
Proof. body_cases e. Qed.

Lemma pass_inclusion_file h node now l p :
  loadDataFromFile (txInclusionFile (disk (p_state p))) = txInclusionList (p_state p) ->
  loadDataFromFile
    (txInclusionFile (disk (p_state (fold_left (loop_body h node now) l p)))) =
    txInclusionList (p_state (fold_left (loop_body h node now) l p)).
Proof.
  revert p. induction l as [|e l IH]; intros p Hsync; [done|].
  simpl. by apply IH, body_inclusion_file.
Qed.

(** Whenever the loop waits for an event, each of the four files holds the
    collection that is in memory: loading the data folder at that point
    gives the four slices back. *)
Theorem files_follow_memory `{Library} d st :
  reachable d st ->
  loadDataFromFile (txDataFile (disk st)) = txDataList st /\
  loadDataFromFile (blockDataFile (disk st)) = blockDataList st /\
  loadDataFromFile (txMetricsFile (disk st)) = txMetricsList st /\
  loadDataFromFile (txInclusionFile (disk st)) = txInclusionList st.
Proof.
  induction 1 as [|st tx now _ (IH1 & IH2 & IH3 & IH4)
                  |st h node now entries _ (IH1 & IH2 & IH3 & IH4) _].
  - done.
  - unfold on_tx. destruct (tx_Type tx =? BlobTxType); [|done].
    by destruct (txData tx), (recordTxMetrics _ _ _).
  - destruct (head_other_lists st h node now entries) as (-> & -> & ->).
    unfold on_head, head_pass, reconcile. simpl.
    destruct (pass_disk h node now entries (mkPass (record_block st h) 0 0 0))
      as (-> & -> & ->).
    simpl. repeat split; try done.
    by apply pass_inclusion_file.
Qed.

Lemma files_follow_memory_witness :
  loadDataFromFile (txDataFile (disk state_AB)) = txDataList state_AB /\
  loadDataFromFile (blockDataFile (disk state_AB)) = blockDataList state_AB /\
  loadDataFromFile (txMetricsFile (disk state_AB)) = txMetricsList state_AB /\
  loadDataFromFile (txInclusionFile (disk state_AB)) = txInclusionList state_AB.
Proof.
  apply (files_follow_memory empty_disk state_AB).
  apply reach_tx, reach_tx, reach_initial.
Defined.

(** ** Saving and loading through the codec *)

Section Codec.
Import Persist.












(** The builder that the program writes in a block record is valid UTF-8:
    what [strings.ToValidUTF8] returns is left as it is by the coercion of
    the encoder. *)
Lemma ToValidUTF8_valid s : coerce (Geth.ToValidUTF8 s) = Geth.ToValidUTF8 s.
Proof.
  remember (length s) as n eqn:Hn. revert s Hn.
  induction n as [n IH] using lt_wf_ind. intros s ->.
  assert (forall s', (length s' < length s)%nat ->
            coerce (Geth.ToValidUTF8 s') = Geth.ToValidUTF8 s') as IH'
    by (intros s' Hs'; by apply (IH (length s'))).
  clear IH. destruct s as [|c s1]; [done|].
  cbn [Geth.ToValidUTF8].
  destruct (Geth.in_range 0 127 c) eqn:Hc.
  { cbn [coerce]. rewrite Hc. f_equal. apply IH'. simpl. lia. }
  destruct (Geth.leading c) as [[[k lo] hi]|] eqn:Hl; [|apply IH'; simpl; lia].
  destruct k as [|[|[|[|k]]]]; try (apply IH'; simpl; lia).
  - destruct s1 as [|c1 s2]; [apply IH'; simpl; lia|].
    destruct (Geth.in_range lo hi c1) eqn:H1; [|apply IH'; simpl; lia].
    cbn [coerce]. rewrite Hc, Hl, H1. do 2 f_equal. apply IH'. simpl. lia.
  - destruct s1 as [|c1 [|c2 s3]]; try (apply IH'; simpl; lia).
    destruct (Geth.in_range lo hi c1 && Geth.continuation c2) eqn:H1;
      [|apply IH'; simpl; lia].
    cbn [coerce]. rewrite Hc, Hl, H1. do 3 f_equal. apply IH'. simpl. lia.
  - destruct s1 as [|c1 [|c2 [|c3 s4]]]; try (apply IH'; simpl; lia).
    destruct (Geth.in_range lo hi c1 && Geth.continuation c2 && Geth.continuation c3) eqn:H1;
      [|apply IH'; simpl; lia].
    cbn [coerce]. rewrite Hc, Hl, H1. do 4 f_equal. apply IH'. simpl. lia.
Qed.

Lemma block_record_builder_valid fee h :
  is_valid_utf8 (BlockData.Builder (block_record fee h)) = true.
Proof. apply bool_decide_eq_true_2, ToValidUTF8_valid. Qed.

End Codec.




(** * Further properties of the loop *)

(** ** The collections only grow *)

Lemma body_inclusions h node now p e :
  txInclusionList (p_state (loop_body h node now p e)) =
  txInclusionList (p_state p) ++ new_inclusions h node now (txTime (p_state p)) e.
Proof.
  unfold new_inclusions. body_cases e; by rewrite ?app_nil_r.
Qed.

Lemma pass_inclusions_grow h node now l p :
  txInclusionList (p_state p) `prefix_of`
  txInclusionList (p_state (fold_left (loop_body h node now) l p)).
Proof.
  revert p. induction l as [|e l IH]; intros p; [done|].
  simpl. etrans; [|apply IH]. rewrite body_inclusions. by apply prefix_app_r.
Qed.

Lemma handle_grows `{Library} st ev :
  txDataList st `prefix_of` txDataList (handle st ev) /\
  blockDataList st `prefix_of` blockDataList (handle st ev) /\
  txMetricsList st `prefix_of` txMetricsList (handle st ev) /\
  txInclusionList st `prefix_of` txInclusionList (handle st ev) /\
  log st `prefix_of` log (handle st ev).
Proof.
  destruct ev as [tx now|h node now entries]; cbn [handle].
  - unfold on_tx. destruct (tx_Type tx =? BlobTxType); [|done].
    unfold txData, recordTxMetrics. destruct (tx_Sender tx); simpl;
      repeat split; try done; by apply prefix_app_r.
  - destruct (head_other_lists st h node now entries) as (-> & -> & ->).
    repeat split; try done.
    + by apply prefix_app_r.
    + unfold on_head, head_pass, reconcile. simpl.
      apply (pass_inclusions_grow h node now entries (mkPass (record_block st h) 0 0 0)).
    + unfold on_head, head_pass, reconcile. simpl.
      destruct (pass_log h node now entries (mkPass (record_block st h) 0 0 0))
        as [lines ->].
      simpl. rewrite <- !app_assoc. by apply prefix_app_r.
Qed.

(** The four collections and the log are append-only: whatever events the
    loop handles, what a collection held before is a prefix of what it holds
    after; no record is ever changed, reordered or dropped. *)
Theorem collections_append_only `{Library} st evs :
  txDataList st `prefix_of` txDataList (run st evs) /\
  blockDataList st `prefix_of` blockDataList (run st evs) /\
  txMetricsList st `prefix_of` txMetricsList (run st evs) /\
  txInclusionList st `prefix_of` txInclusionList (run st evs) /\
  log st `prefix_of` log (run st evs).
Proof.
  revert st. induction evs as [|ev evs IH]; intros st; [done|].
  unfold run in *. simpl.
  destruct (handle_grows st ev) as (H1 & H2 & H3 & H4 & H5).
  destruct (IH (handle st ev)) as (I1 & I2 & I3 & I4 & I5).
  repeat split; by etrans.
Qed.

(** ** How many records a run appends *)

Lemma handle_lengths `{Library} st ev :
  length (blockDataList (handle st ev)) =
    (length (blockDataList st) + (if is_head ev then 1 else 0))%nat /\
  length (txDataList (handle st ev)) =
    (length (txDataList st) + (if is_blob_delivery ev then 1 else 0))%nat /\
  length (txMetricsList (handle st ev)) =
    (length (txMetricsList st) + (if is_signed_blob_delivery ev then 1 else 0))%nat.
Proof.
  destruct ev as [tx now|h node now entries]; cbn [handle is_head is_blob_delivery
    is_signed_blob_delivery].
  - unfold on_tx. destruct (tx_Type tx =? BlobTxType); simpl; [|lia].
    unfold txData, recordTxMetrics. destruct (tx_Sender tx); simpl;
      rewrite ?length_app; simpl; lia.
  - destruct (head_other_lists st h node now entries) as (-> & -> & ->).
    rewrite length_app. simpl. lia.
Qed.

Lemma run_lengths `{Library} st evs :
  length (blockDataList (run st evs)) =
    (length (blockDataList st) + countb is_head evs)%nat /\
  length (txDataList (run st evs)) =
    (length (txDataList st) + countb is_blob_delivery evs)%nat /\
  length (txMetricsList (run st evs)) =
    (length (txMetricsList st) + countb is_signed_blob_delivery evs)%nat.
Proof.
  revert st. induction evs as [|ev evs IH]; intros st.
  - unfold run, countb. simpl. lia.
  - unfold run in *. simpl.
    destruct (IH (handle st ev)) as (-> & -> & ->).
    destruct (handle_lengths st ev) as (-> & -> & ->).
    unfold countb. simpl.
    destruct (is_head ev), (is_blob_delivery ev), (is_signed_blob_delivery ev);
      simpl; lia.
Qed.

Lemma iteration_panicked `{Library} st ds :
  fold_left iteration ds (Panicked st) = Panicked st.
Proof. by induction ds. Qed.

(** The loop on deliveries is the loop on the events it handles to the end;
    when a head without a base fee has ended it, the blob base fee alone may
    differ. *)
Lemma main_loop_handled `{Library} st ds :
  main_loop st ds = Waiting (run st (handled ds)) \/
  exists fee, main_loop st ds = Panicked (with_fee fee (run st (handled ds))).
Proof.
  revert st. induction ds as [|[tx now|rh node now entries] ds IH]; intros st.
  - by left.
  - apply (IH (on_tx st tx now)).
  - unfold main_loop. simpl. unfold head_case.
    destruct (dereferenced rh) as [h|]; [apply (IH (on_head st h node now entries))|].
    right. rewrite iteration_panicked. by eexists.
Qed.

(** A run of events whose heads all carry a base fee is never ended by a
    panic of the new-head case. *)
Lemma main_loop_run `{Library} st evs :
  main_loop st (map delivery evs) = Waiting (run st evs).
Proof.
  revert st. induction evs as [|[tx now|[hash number time fee excess extra] node now entries]
                                evs IH]; intros st; [done|apply IH|apply IH].
Qed.

(** Whatever the loop receives, the records it has appended when it waits
    for its next event, or when a panic has ended it, are one block record
    per head handled to the end, which are the heads that carry a base fee
    up to the first head without one; one transaction-data record per
    delivery of a blob transaction (a repeated delivery counts again); and
    one metrics record per delivery of a blob transaction whose sender can
    be recovered. A head without a base fee adds no record and ends the
    loop: no delivery after it is counted. *)
Theorem records_per_event `{Library} st ds :
  length (blockDataList (state_of (main_loop st ds))) =
    (length (blockDataList st) + countb is_head (handled ds))%nat /\
  length (txDataList (state_of (main_loop st ds))) =
    (length (txDataList st) + countb is_blob_delivery (handled ds))%nat /\
  length (txMetricsList (state_of (main_loop st ds))) =
    (length (txMetricsList st) + countb is_signed_blob_delivery (handled ds))%nat.
Proof.
  destruct (main_loop_handled st ds) as [->|[fee ->]]; apply run_lengths.
Qed.

(** A is received, then head 9 without a base fee, then B: the panic of the
    new-head case ends the loop in the state that A left, with the blob base
    fee of head 9; no block record exists and B is never handled. *)
Example loop_ended_by_head_without_base_fee :
  main_loop (initial empty_disk)
    [DeliverTx tx_A 100;
     DeliverHead head_9_without_base_fee (node_without_receipt 5) 200 [(tx_Hash tx_A, tx_A)];
     DeliverTx tx_B 150] =
  Panicked (with_fee 7937191259 state_A).
Proof. by vm_compute. Qed.

(** ** What a pass leaves pending *)

(** After a pass, the pending set is exactly the set of the entries it held
    whose verdict is not terminal: nothing is added, nothing is altered, and
    an entry is removed only as included or superseded. *)
Theorem pass_filters_pending `{Library} st h node now entries :
  entries ≡ₚ map_to_list (pendingTxs st) ->
  pendingTxs (on_head st h node now entries) =
  filter (fun e => retires (next_base_fee st h) h node e = false) (pendingTxs st).
Proof.
  intros Hperm. apply map_eq. intros k.
  destruct (pendingTxs st !! k) as [t|] eqn:Hk.
  - pose proof (head_entry_fate st h node now entries k t Hperm Hk) as Hfate.
    destruct (terminal _) eqn:Hterminal; destruct Hfate as [-> _]; symmetry.
    + apply map_lookup_filter_None_2. right. intros t' Ht'. simplify_eq.
      unfold retires. simpl. by rewrite Hterminal.
    + by apply map_lookup_filter_Some_2.
  - rewrite head_pending, sweep_lookup_None by done. symmetry.
    apply map_lookup_filter_None_2. by left.
Qed.

Lemma pass_filters_pending_witness :
  pendingTxs (on_head state_AB head_7 (node_without_receipt 6) 200
                [(tx_Hash tx_B, tx_B); (tx_Hash tx_A, tx_A)]) =
  filter (fun e => retires (next_base_fee state_AB head_7) head_7
                     (node_without_receipt 6) e = false)
         (pendingTxs state_AB).
Proof.
  apply (pass_filters_pending state_AB head_7 (node_without_receipt 6) 200).
  vm_compute. apply perm_swap.
Defined.

(** ** The inclusion records of a pass *)





(** ** The sizes printed after a pass *)

Lemma sweep_size {A} fee h node l (m : gmap Hash A) :
  NoDup l.*1 ->
  (forall e, e ∈ l -> is_Some (m !! e.1)) ->
  (size (sweep fee h node l m) + countb (retires fee h node) l)%nat = size m.
Proof.
  revert m. induction l as [|e l IH]; intros m Hnodup Hin.
  - unfold countb. simpl. lia.
  - apply NoDup_cons in Hnodup as [Hfresh Hnodup].
    rewrite sweep_cons. unfold countb in *. simpl List.filter.
    destruct (retires fee h node e) eqn:Hret.
    + assert (is_Some (m !! e.1)) as Hsome by (apply Hin; by left).
      pose proof (IH (delete e.1 m) Hnodup) as IH'.
      rewrite map_size_delete_Some in IH' by done.
      assert (size m <> 0%nat) as Hsize.
      { intros Hsize. apply map_size_empty_inv in Hsize. subst.
        destruct Hsome as [x Hx]. by rewrite lookup_empty in Hx. }
      simpl length. rewrite Nat.add_succ_r, IH'; [lia|].
      intros e' He'. rewrite lookup_delete_ne.
      * apply Hin. by right.
      * intros Heq. apply Hfresh. rewrite Heq. apply list_elem_of_fmap.
        by exists e'.
    + apply IH; [done|]. intros e' He'. apply Hin. by right.
Qed.

Lemma viable_not_retired fee h node l :
  (countb (is_viable fee h node) l + countb (retires fee h node) l <= length l)%nat.
Proof.
  unfold countb. induction l as [|e l IH]; simpl; [lia|].
  unfold is_viable at 1, retires at 1.
  destruct (verdict fee h node e.1 e.2); simpl; lia.
Qed.

Lemma count_step_viable fee h node b v vb e :
  0 <= v -> v + 1 < 2 ^ 63 ->
  (count_step fee h node (b, v, vb) e).1.2 =
  v + (if is_viable fee h node e then 1 else 0).
Proof.
  intros Hv Hbound. unfold count_step, is_viable.
  destruct (verdict fee h node e.1 e.2); simpl; try lia.
  rewrite wrap_int_small; lia.
Qed.

Lemma fold_count_viable fee h node l b v vb :
  0 <= v -> v + Z.of_nat (length l) < 2 ^ 63 ->
  (fold_left (count_step fee h node) l (b, v, vb)).1.2 =
  v + Z.of_nat (countb (is_viable fee h node) l).
Proof.
  revert b v vb. induction l as [|e l IH]; intros b v vb Hv Hbound.
  - unfold countb. simpl. lia.
  - cbn [fold_left]. cbn [length] in Hbound.
    pose proof (count_step_viable fee h node b v vb e Hv) as Hstep.
    destruct (count_step fee h node (b, v, vb) e) as [[b' v'] vb'].
    simpl in Hstep. rewrite IH.
    + unfold countb. simpl List.filter.
      destruct (is_viable fee h node e); simpl length; lia.
    + destruct (is_viable fee h node e); lia.
    + destruct (is_viable fee h node e); lia.
Qed.

(** The numbers of the summary, for a pass over a pending set that Go's
    [int] can count: the size before is the number of entries; the size
    after is smaller by the number of entries included or superseded, which
    is what is printed as the number of inclusions; the viable count is the
    number of entries with the verdict viable, and never exceeds the size
    after. *)
Theorem pass_sizes `{Library} st h node now entries :
  entries ≡ₚ map_to_list (pendingTxs st) ->
  Z.of_nat (size (pendingTxs st)) < 2 ^ 63 ->
  previousPendingTxs (head_aggregates st h node now entries) =
    Z.of_nat (length entries) /\
  currentPendingTxs (head_aggregates st h node now entries) =
    Z.of_nat (length entries) -
    Z.of_nat (countb (retires (next_base_fee st h) h node) entries) /\
  transactionInclusions (head_aggregates st h node now entries) =
    Z.of_nat (countb (retires (next_base_fee st h) h node) entries) /\
  viableTransactions (head_aggregates st h node now entries) =
    Z.of_nat (countb (is_viable (next_base_fee st h) h node) entries) /\
  viableTransactions (head_aggregates st h node now entries) <=
    currentPendingTxs (head_aggregates st h node now entries).
Proof.
  intros Hperm Hbound.
  assert (length entries = size (pendingTxs st)) as Hlen.
  { by rewrite Hperm, length_map_to_list. }
  pose proof (sweep_size (next_base_fee st h) h node entries (pendingTxs st)) as Hsize.
  rewrite <- head_pending with (now := now) in Hsize.
  assert (NoDup entries.*1) as Hnodup.
  { rewrite Hperm. apply NoDup_fst_map_to_list. }
  specialize (Hsize Hnodup).
  assert (forall e, e ∈ entries -> is_Some (pendingTxs st !! e.1)) as Hin.
  { intros [k t] He. rewrite Hperm in He. apply elem_of_map_to_list in He. by eexists. }
  specialize (Hsize Hin).
  pose proof (viable_not_retired (next_base_fee st h) h node entries) as Hdisjoint.
  assert (viabletxs (head_pass st h node now entries) =
          Z.of_nat (countb (is_viable (next_base_fee st h) h node) entries)) as Hviable.
  { pose proof (head_counters st h node now entries) as Hcount.
    unfold counters in Hcount.
    pose proof (fold_count_viable (next_base_fee st h) h node entries 0 0 0) as Hfold.
    rewrite <- Hcount in Hfold. simpl in Hfold. rewrite Hfold; lia. }
  unfold head_aggregates, aggregates. simpl.
  change (pendingTxs (p_state (head_pass st h node now entries)))
    with (pendingTxs (on_head st h node now entries)).
  unfold len_map. rewrite Hviable.
  repeat split; try lia.
  rewrite wrap_int_small; lia.
Qed.

Lemma pass_sizes_witness :
  previousPendingTxs (head_aggregates state_AB head_7 (node_without_receipt 6) 200
    [(tx_Hash tx_B, tx_B); (tx_Hash tx_A, tx_A)]) = Z.of_nat 2 /\
  currentPendingTxs (head_aggregates state_AB head_7 (node_without_receipt 6) 200
    [(tx_Hash tx_B, tx_B); (tx_Hash tx_A, tx_A)]) =
    Z.of_nat 2 -
    Z.of_nat (countb (retires (next_base_fee state_AB head_7) head_7 (node_without_receipt 6))
                [(tx_Hash tx_B, tx_B); (tx_Hash tx_A, tx_A)]) /\
  transactionInclusions (head_aggregates state_AB head_7 (node_without_receipt 6) 200
    [(tx_Hash tx_B, tx_B); (tx_Hash tx_A, tx_A)]) =
    Z.of_nat (countb (retires (next_base_fee state_AB head_7) head_7 (node_without_receipt 6))
                [(tx_Hash tx_B, tx_B); (tx_Hash tx_A, tx_A)]) /\
  viableTransactions (head_aggregates state_AB head_7 (node_without_receipt 6) 200
    [(tx_Hash tx_B, tx_B); (tx_Hash tx_A, tx_A)]) =
    Z.of_nat (countb (is_viable (next_base_fee state_AB head_7) head_7 (node_without_receipt 6))
                [(tx_Hash tx_B, tx_B); (tx_Hash tx_A, tx_A)]) /\
  viableTransactions (head_aggregates state_AB head_7 (node_without_receipt 6) 200
    [(tx_Hash tx_B, tx_B); (tx_Hash tx_A, tx_A)]) <=
  currentPendingTxs (head_aggregates state_AB head_7 (node_without_receipt 6) 200
    [(tx_Hash tx_B, tx_B); (tx_Hash tx_A, tx_A)]).
Proof.
  apply (pass_sizes state_AB head_7 (node_without_receipt 6) 200
           [(tx_Hash tx_B, tx_B); (tx_Hash tx_A, tx_A)]).
  - vm_compute. apply perm_swap.
  - by vm_compute.
Defined.

(** ** The inclusion delay is not negative *)

(** Rounding a non-negative mantissa never yields a negative number nor a
    NaN. *)
Lemma iter_pos_shr_nonneg p mrs :
  0 <= shr_m mrs -> 0 <= shr_m (SpecFloat.iter_pos shr_1 p mrs).
Proof.
  assert (forall mrs, 0 <= shr_m mrs -> 0 <= shr_m (shr_1 mrs)) as Hstep.
  { intros [m r s] Hm. simpl in *. destruct m as [|[q|q|]|q]; simpl; lia. }
  revert mrs. induction p as [p IH|p IH|]; intros mrs Hm; simpl; auto.
Qed.

Lemma shr_fexp_nonneg m e l :
  0 <= m -> 0 <= shr_m (shr_fexp 53 1024 m e l).1.
Proof.
  intros Hm. unfold shr_fexp, shr.
  assert (0 <= shr_m (shr_record_of_loc m l)) as Hrec.
  { by destruct l as [|[]]. }
  destruct (fexp 53 1024 (Zdigits2 m + e) - e); simpl; try done.
  by apply iter_pos_shr_nonneg.
Qed.

Lemma binary_round_aux_positive mx ex lx :
  0 <= mx -> positive_sign (binary_round_aux 53 1024 false mx ex lx) = true.
Proof.
  intros Hm. unfold binary_round_aux.
  pose proof (shr_fexp_nonneg mx ex lx Hm) as H1.
  destruct (shr_fexp 53 1024 mx ex lx) as [mrs' e']. simpl in H1.
  assert (0 <= round_nearest_even (shr_m mrs') (loc_of_shr_record mrs')) as Hround.
  { unfold round_nearest_even.
    destruct (loc_of_shr_record mrs') as [|[]]; try lia.
    destruct (Z.even (shr_m mrs')); lia. }
  pose proof (shr_fexp_nonneg _ e' loc_Exact Hround) as H2.
  destruct (shr_fexp 53 1024 _ e' loc_Exact) as [mrs'' e'']. simpl in H2.
  destruct (shr_m mrs''); [done| |lia].
  by destruct (e'' <=? 1024 - 53).
Qed.

Lemma binary_normalize_positive z e :
  0 <= z -> positive_sign (binary_normalize 53 1024 z e false) = true.
Proof.
  intros Hz. unfold binary_normalize.
  destruct z as [|m|m]; [done| |lia].
  unfold binary_round. destruct (shl_align _ _ _) as [mz ez].
  by apply binary_round_aux_positive.
Qed.

Lemma float64_of_Z_positive z :
  0 <= z -> positive_sign (float64_of_Z z) = true.
Proof. apply binary_normalize_positive. Qed.

Lemma fdiv_GWei_positive x :
  positive_sign x = true -> positive_sign (fdiv x GWei) = true.
Proof.
  intros Hx. change GWei with (S754_finite false 8388608000000000 (-23)).
  unfold fdiv, SFdiv. destruct x as [[]|[]| |[] mx ex]; try done.
  unfold SFdiv_core_binary.
  set (s := ex - -23 - _).
  set (m' := match s with Z0 => Z.pos mx | Z.pos _ => Z.shiftl (Z.pos mx) s | Z.neg _ => 0 end).
  assert (0 <= m') as Hm'.
  { unfold m'. destruct s; try lia. apply Z.shiftl_nonneg. lia. }
  pose proof (Z_div_mod m' (Z.pos 8388608000000000) eq_refl) as Hdiv.
  destruct (Z.div_eucl m' (Z.pos 8388608000000000)) as [q r].
  apply binary_round_aux_positive. nia.
Qed.

Lemma fadd_positive x y :
  positive_sign x = true -> positive_sign y = true ->
  positive_sign (fadd x y) = true.
Proof.
  intros Hx Hy. unfold fadd, SFadd.
  destruct x as [[]|[]| |[] mx ex], y as [[]|[]| |[] my ey]; try done.
  apply binary_normalize_positive. unfold cond_Zopp. lia.
Qed.

Lemma positive_sign_nonneg x : positive_sign x = true -> float64_nonneg x = true.
Proof. by destruct x as [[]|[]| |[] mx ex]. Qed.

Lemma Seconds_nonneg d : 0 <= d -> float64_nonneg (Seconds d) = true.
Proof.
  intros Hd. apply positive_sign_nonneg. unfold Seconds.
  apply fadd_positive.
  - apply float64_of_Z_positive. by apply Z.quot_pos.
  - apply fdiv_GWei_positive, float64_of_Z_positive. by apply Z.rem_nonneg.
Qed.

Lemma sweep_lookup_Some {A} fee h node l (m : gmap Hash A) k v :
  sweep fee h node l m !! k = Some v -> m !! k = Some v.
Proof.
  revert m. induction l as [|e l IH]; intros m Hk; [done|].
  rewrite sweep_cons in Hk. apply IH in Hk.
  destruct (retires fee h node e); [|done].
  by apply lookup_delete_Some in Hk as [_ Hk].
Qed.

Lemma new_inclusions_delay h node now times e :
  0 <= now ->
  (forall k v, times !! k = Some v -> v <= now) ->
  Forall (fun r => float64_nonneg (TxInclusionData.InclusionDelay r) = true)
         (new_inclusions h node now times e).
Proof.
  intros Hnow Htimes. unfold new_inclusions, recordTxInclusion.
  destruct (receipt_in_head node h e.1); [|done].
  destruct (tx_Sender e.2); [|done]. simpl.
  constructor; [|done]. simpl. apply Seconds_nonneg.
  unfold since. destruct (times !! e.1) as [v|] eqn:Hv; simpl; [|lia].
  apply Htimes in Hv. lia.
Qed.

Lemma pass_delays h node now l p :
  0 <= now ->
  (forall k v, txTime (p_state p) !! k = Some v -> v <= now) ->
  exists suffix,
    txInclusionList (p_state (fold_left (loop_body h node now) l p)) =
      txInclusionList (p_state p) ++ suffix /\
    Forall (fun r => float64_nonneg (TxInclusionData.InclusionDelay r) = true) suffix.
Proof.
  intros Hnow. revert p. induction l as [|e l IH]; intros p Htimes.
  - exists []. by rewrite app_nil_r.
  - simpl. destruct (IH (loop_body h node now p e)) as (suffix & -> & Hsuffix).
    + intros k v. rewrite body_txTime. destruct (retires _ _ _ _); [|by apply Htimes].
      intros [_ Hk]%lookup_delete_Some. by apply Htimes in Hk.
    + exists (new_inclusions h node now (txTime (p_state p)) e ++ suffix).
      split; [by rewrite body_inclusions, app_assoc|].
      apply Forall_app. split; [|done]. by apply new_inclusions_delay.
Qed.

Lemma run_delays `{Library} t st evs :
  0 <= t ->
  (forall k v, txTime st !! k = Some v -> v <= t) ->
  monotone_clock t evs ->
  exists suffix,
    txInclusionList (run st evs) = txInclusionList st ++ suffix /\
    Forall (fun r => float64_nonneg (TxInclusionData.InclusionDelay r) = true) suffix.
Proof.
  revert t st. induction evs as [|ev evs IH]; intros t st Ht Htimes Hclock.
  - exists []. by rewrite app_nil_r.
  - destruct Hclock as [Hle Hclock]. unfold run in *. cbn [fold_left].
    destruct ev as [tx now|h node now entries]; cbn [handle event_time] in *.
    + destruct (IH now (on_tx st tx now)) as (suffix & -> & Hsuffix); [lia| |done|].
      * intros k v. unfold on_tx. destruct (tx_Type tx =? BlobTxType).
        -- destruct (txData tx), (recordTxMetrics _ _ _). simpl.
           destruct (decide (tx_Hash tx = k)) as [<-|Hne].
           ++ rewrite lookup_insert_eq. intros [= <-]. lia.
           ++ rewrite lookup_insert_ne by done. intros Hk%Htimes. lia.
        -- intros Hk%Htimes. lia.
      * exists suffix. split; [|done]. f_equal.
        unfold on_tx. destruct (tx_Type tx =? BlobTxType); [|done].
        by destruct (txData tx), (recordTxMetrics _ _ _).
    + destruct (IH now (on_head st h node now entries)) as (suffix & -> & Hsuffix);
        [lia| |done|].
      * intros k v. rewrite head_txTime. intros Hk%sweep_lookup_Some%Htimes. lia.
      * destruct (pass_delays h node now entries (mkPass (record_block st h) 0 0 0))
          as (suffix' & Heq & Hsuffix'); [lia| |].
        { simpl. intros k v Hk%Htimes. lia. }
        exists (suffix' ++ suffix). split.
        -- unfold on_head, head_pass, reconcile. simpl. simpl in Heq.
           by rewrite Heq, app_assoc.
        -- by apply Forall_app.
Qed.

(** When the clock starts at a non-negative instant and never runs
    backwards, every inclusion record that a run appends to the records
    loaded at start-up has a delay that is not negative ([0 <= delay] in
    [float64], which also says that the delay is not a NaN). *)
Theorem inclusion_delay_nonneg `{Library} d evs :
  monotone_clock 0 evs ->
  Forall (fun r => float64_nonneg (TxInclusionData.InclusionDelay r) = true)
         (drop (length (txInclusionList (initial d)))
               (txInclusionList (run (initial d) evs))).
Proof.
  intros Hclock.
  destruct (run_delays 0 (initial d) evs) as (suffix & -> & Hsuffix); [lia| |done|].
  - intros k v. simpl. by rewrite lookup_empty.
  - by rewrite drop_app_length.
Qed.

Lemma inclusion_delay_nonneg_witness :
  Forall (fun r => float64_nonneg (TxInclusionData.InclusionDelay r) = true)
         (drop (length (txInclusionList (initial empty_disk)))
               (txInclusionList
                  (run (initial empty_disk)
                     [NewTx tx_A 100;
                      NewHead head_7 node_including_A 1500000100
                        [(tx_Hash tx_A, tx_A)]]))).
Proof.
  apply (inclusion_delay_nonneg empty_disk
           [NewTx tx_A 100;
            NewHead head_7 node_including_A 1500000100 [(tx_Hash tx_A, tx_A)]]).
  simpl. lia.
Defined.

(** * The contract calls *)

Section ContractCalls.
Context `{Contracts.World}.
Import Contracts.

(** [LoadABI] always returns a [nil] error, and only adds to the trace. *)
Lemma LoadABI_result filePath tr :
  exists abi tr',
    LoadABI filePath tr = (Some (abi, None), tr') /\
    tr `prefix_of` tr' /\
    nothing_sent (drop (length tr) tr') = true /\
    (is_Some (abi_JSON (os_ReadFile tr filePath).1) -> abi = ZeroABI).
Proof.
  unfold LoadABI, log_error, logPrintln, bind, perform, ret.
  destruct (os_ReadFile tr filePath) as [data [e|]] eqn:Hread; simpl;
    destruct (abi_JSON data) as [e'|] eqn:Hparse; simpl;
    eexists _, _; (split; [reflexivity|]); rewrite <- ?app_assoc;
    (split; [by apply prefix_app_r|]); rewrite drop_app_length;
    (split; [done|]); try done; by intros [? ?].
Qed.

(** [GetMinDeposit] never reports that the ABI could not be loaded: the
    errors of reading and of parsing the file are only logged, the contract
    is called in any case, with the zero ABI when the text does not parse,
    and the outcome is the one that the answer of the call decides. An empty
    result slice is a panic. *)
Theorem GetMinDeposit_decided_by_call tr :
  exists abi tr',
    LoadABI "abi/BidderRegistry.abi" tr = (Some (abi, None), tr') /\
    (is_Some (abi_JSON (os_ReadFile tr "abi/BidderRegistry.abi").1) -> abi = ZeroABI) /\
    GetMinDeposit tr =
      (match contract_Call tr' bidderRegistryAddress abi "minDeposit" [] with
       | (_, Some e) => Some (Err ("failed to call minDeposit function: " +:+ e))
       | ([], None) => None
       | (VBigInt minDeposit :: _, None) => Some (Ok minDeposit)
       | (_ :: _, None) => Some (Err "failed to convert minDeposit to *big.Int")
       end,
       tr' ++ [Call bidderRegistryAddress abi "minDeposit" []]).
Proof.
  destruct (LoadABI_result "abi/BidderRegistry.abi" tr) as (abi & tr' & Hload & _ & _ & Hzero).
  exists abi, tr'. split; [done|]. split; [done|].
  unfold GetMinDeposit, bind. rewrite Hload. unfold call, perform, ret, panic.
  destruct (contract_Call tr' bidderRegistryAddress abi "minDeposit" [])
    as [[|[m|a|n] results] [e|]]; done.
Qed.

(** [GetDepositAmount] does not use the address nor the window it is given:
    it performs the very effects of [GetMinDeposit], asking the contract for
    [minDeposit], and returns the same amount, or panics, in the same
    cases. *)
Theorem GetDepositAmount_is_GetMinDeposit address window tr :
  (GetDepositAmount address window tr).2 = (GetMinDeposit tr).2 /\
  (forall amount,
     (GetDepositAmount address window tr).1 = Some (Ok amount) <->
     (GetMinDeposit tr).1 = Some (Ok amount)) /\
  ((GetDepositAmount address window tr).1 = None <-> (GetMinDeposit tr).1 = None).
Proof.
  destruct (LoadABI_result "abi/BidderRegistry.abi" tr) as (abi & tr' & Hload & _).
  unfold GetDepositAmount, GetMinDeposit, bind. rewrite Hload.
  unfold call, perform, ret, panic.
  destruct (contract_Call tr' bidderRegistryAddress abi "minDeposit" [])
    as [[|[m|a|n] results] [e|]]; simpl; repeat split; try done; intros; done.
Qed.

(** [WindowHeight] never returns an error. It panics exactly when the call
    leaves the result slice empty, whether the call reported an error or
    not; otherwise it returns the first result when that is a [big.Int], and
    a [nil] pointer when it is not. *)
Theorem WindowHeight_outcome tr :
  exists abi tr',
    LoadABI "abi/BlockTracker.abi" tr = (Some (abi, None), tr') /\
    (WindowHeight tr).1 =
      match (contract_Call tr' blockTrackerAddress abi "getCurrentWindow" []).1 with
      | [] => None
      | VBigInt currentWindow :: _ => Some (Some currentWindow, None)
      | _ :: _ => Some (None, None)
      end.
Proof.
  destruct (LoadABI_result "abi/BlockTracker.abi" tr) as (abi & tr' & Hload & _).
  exists abi, tr'. split; [done|].
  unfold WindowHeight, bind. rewrite Hload.
  unfold log_error, call, logPrintln, perform, ret, panic. simpl.
  destruct (contract_Call tr' blockTrackerAddress abi "getCurrentWindow" [])
    as [[|[m|a|n] results] [e|]]; done.
Qed.

End ContractCalls.

Section Deposits.
Context `{Contracts.World}.
Import Contracts.

Lemma nothing_sent_app tr1 tr2 :
  nothing_sent (tr1 ++ tr2) = nothing_sent tr1 && nothing_sent tr2.
Proof. apply forallb_app. Qed.

Lemma GetMinDeposit_trace tr :
  tr `prefix_of` (GetMinDeposit tr).2 /\
  nothing_sent (drop (length tr) (GetMinDeposit tr).2) = true.
Proof.
  destruct (LoadABI_result "abi/BidderRegistry.abi" tr)
    as (abi & tr' & Hload & [k ->] & Hnone & _).
  rewrite drop_app_length in Hnone.
  unfold GetMinDeposit, bind. rewrite Hload. unfold call, perform, ret, panic.
  assert (nothing_sent (k ++ [Call bidderRegistryAddress abi "minDeposit" []]) = true)
    as Hnone' by (by rewrite nothing_sent_app, Hnone).
  destruct (contract_Call _ _ _ _ _) as [[|[m|a|n] results] [e|]]; simpl;
    rewrite <- app_assoc, drop_app_length; (split; [by apply prefix_app_r|done]).
Qed.

(** [WithdrawFromWindow] calls [Transact] with the options of the account
    as they are, whatever happened to the ABI file. *)
Lemma withdraw_calls authAcct window tr :
  transact_called (WithdrawFromWindow authAcct window tr).2 (Auth authAcct)
    "withdrawBidderAmountFromWindow"
    [VAddress (acct_Address authAcct); VBigInt window].
Proof.
  destruct (LoadABI_result "abi/BidderRegistry.abi" tr) as (abi & tr' & Hload & _).
  exists abi. unfold WithdrawFromWindow, bind. rewrite Hload.
  unfold transact, waitMined, fmtPrintln, perform, ret.
  destruct (contract_Transact _ _ _ _ _ _) as [tx|e]; simpl; [|set_solver].
  destruct (bind_WaitMined _ _) as [receipt|e]; simpl; [|set_solver].
  destruct (Status receipt =? 1); simpl; set_solver.
Qed.

(** [WithdrawFromWindow] always calls [Transact] on the bidder registry for
    the withdrawal, with the options of the account as they are, the address
    of the account and the window; the errors of loading the ABI file are
    only logged, so that the call is made even with the zero ABI. The call
    may fail: then nothing is waited for and the error returned is the one
    of the call, wrapped. A transaction is returned only when the call
    returned that transaction and it was mined with status 1. *)
Theorem WithdrawFromWindow_outcome authAcct window tr :
  transact_called (WithdrawFromWindow authAcct window tr).2 (Auth authAcct)
    "withdrawBidderAmountFromWindow"
    [VAddress (acct_Address authAcct); VBigInt window] /\
  (forall withdrawalTx,
     (WithdrawFromWindow authAcct window tr).1 = Some (Ok withdrawalTx) ->
     transact_returned (WithdrawFromWindow authAcct window tr).2 (Auth authAcct)
       "withdrawBidderAmountFromWindow"
       [VAddress (acct_Address authAcct); VBigInt window] withdrawalTx /\
     exists tr' receipt,
       tr' `prefix_of` (WithdrawFromWindow authAcct window tr).2 /\
       bind_WaitMined tr' withdrawalTx = Ok receipt /\ Status receipt = 1) /\
  exists abi tr1,
    LoadABI "abi/BidderRegistry.abi" tr = (Some (abi, None), tr1) /\
    forall e,
      contract_Transact tr1 (Auth authAcct) bidderRegistryAddress abi
        "withdrawBidderAmountFromWindow"
        [VAddress (acct_Address authAcct); VBigInt window] = Err e ->
      WithdrawFromWindow authAcct window tr =
        (Some (Err ("failed to create withdrawal transaction: " +:+ e)),
         tr1 ++ [Transact (Auth authAcct) bidderRegistryAddress abi
                   "withdrawBidderAmountFromWindow"
                   [VAddress (acct_Address authAcct); VBigInt window]]).
Proof.
  split; [apply withdraw_calls|].
  destruct (LoadABI_result "abi/BidderRegistry.abi" tr) as (abi & tr' & Hload & _).
  split.
  - unfold WithdrawFromWindow, bind. rewrite Hload.
    unfold transact, waitMined, fmtPrintln, perform, ret.
    destruct (contract_Transact _ _ _ _ _ _) as [tx|e] eqn:Htx; simpl; [|done].
    destruct (bind_WaitMined _ _) as [receipt|e] eqn:Hmined; simpl; [|done].
    destruct (Status receipt =? 1) eqn:Hstatus; simpl; [|done].
    intros withdrawalTx [= <-]. split.
    + exists abi, tr'. eexists. split; [|exact Htx]. by rewrite <- !app_assoc.
    + eexists _, receipt. split; [|split; [exact Hmined|lia]].
      rewrite <- app_assoc. by apply prefix_app_r.
  - exists abi, tr'. split; [done|]. intros e Htx.
    unfold WithdrawFromWindow, bind. rewrite Hload.
    unfold transact, perform, ret. by rewrite Htx.
Qed.

(** When the minimum deposit cannot be obtained, [DepositIntoWindow] returns
    the error, sends no transaction and leaves the account as it was. *)
Theorem DepositIntoWindow_without_minimum depositWindow authAcct tr e :
  (GetMinDeposit (LoadABI "abi/BidderRegistry.abi" tr).2).1 = Some (Err e) ->
  exists tr',
    DepositIntoWindow depositWindow authAcct tr =
      (Some (Err ("failed to get minDeposit: " +:+ e), authAcct), tr') /\
    nothing_sent (drop (length tr) tr') = true.
Proof.
  destruct (LoadABI_result "abi/BidderRegistry.abi" tr)
    as (abi & tr1 & Hload & [k ->] & Hnone & _).
  rewrite Hload. simpl. intros Hmin.
  unfold DepositIntoWindow, bind. rewrite Hload.
  destruct (GetMinDeposit_trace (tr ++ k)) as [[k' Hk'] Hnone'].
  destruct (GetMinDeposit (tr ++ k)) as [result tr2]. simpl in *. subst.
  eexists. split; [reflexivity|].
  rewrite drop_app_length in *. rewrite <- app_assoc, drop_app_length.
  by rewrite nothing_sent_app, Hnone, Hnone'.
Qed.

(** When the minimum deposit is obtained, [DepositIntoWindow] stores it as
    the value of the options of the account, whatever happens next, and
    calls [Transact] for the deposit with these options; the call may fail.
    A transaction is returned only when the call returned that transaction
    and it was mined with status 1. The value stays in the account: a
    withdrawal made with the account that the deposit leaves calls
    [Transact] with options whose value is the minimum deposit. *)
Theorem deposit_then_withdraw depositWindow authAcct tr minDeposit :
  (GetMinDeposit (LoadABI "abi/BidderRegistry.abi" tr).2).1 = Some (Ok minDeposit) ->
  exists result tr',
    DepositIntoWindow depositWindow authAcct tr =
      (Some (result,
             mkAcct (mkOpts (opts_From (Auth authAcct)) (Some minDeposit))
                    (acct_Address authAcct)), tr') /\
    transact_called tr' (mkOpts (opts_From (Auth authAcct)) (Some minDeposit))
      "depositForSpecificWindow" [VBigInt depositWindow] /\
    (forall tx, result = Ok tx ->
       transact_returned tr' (mkOpts (opts_From (Auth authAcct)) (Some minDeposit))
         "depositForSpecificWindow" [VBigInt depositWindow] tx /\
       exists tr'' receipt,
         tr'' `prefix_of` tr' /\ bind_WaitMined tr'' tx = Ok receipt /\
         Status receipt = 1) /\
    forall window,
      transact_called
        (WithdrawFromWindow
           (mkAcct (mkOpts (opts_From (Auth authAcct)) (Some minDeposit))
                   (acct_Address authAcct)) window tr').2
        (mkOpts (opts_From (Auth authAcct)) (Some minDeposit))
        "withdrawBidderAmountFromWindow"
        [VAddress (acct_Address authAcct); VBigInt window].
Proof.
  destruct (LoadABI_result "abi/BidderRegistry.abi" tr) as (abi & tr1 & Hload & _).
  rewrite Hload. simpl. intros Hmin.
  unfold DepositIntoWindow, bind. rewrite Hload.
  destruct (GetMinDeposit tr1) as [result tr2]. simpl in Hmin. subst.
  unfold transact, waitMined, fmtPrintln, perform, ret. simpl.
  set (opts := mkOpts (opts_From (Auth authAcct)) (Some minDeposit)).
  set (acct := mkAcct opts (acct_Address authAcct)).
  destruct (contract_Transact _ _ _ _ _ _) as [tx|e] eqn:Htx; simpl.
  - destruct (bind_WaitMined _ _) as [receipt|e] eqn:Hmined; simpl.
    + destruct (Status receipt =? 1) eqn:Hstatus; simpl.
      * eexists _, _. split; [reflexivity|]. split; [exists abi; set_solver|].
        split; [|intros window; apply (withdraw_calls acct)].
        intros tx' [= <-]. split.
        -- exists abi, tr2. eexists. split; [|exact Htx]. by rewrite <- !app_assoc.
        -- eexists _, receipt. split; [|split; [exact Hmined|lia]].
           rewrite <- app_assoc. by apply prefix_app_r.
      * eexists _, _. split; [reflexivity|]. split; [exists abi; set_solver|].
        split; [done|intros window; apply (withdraw_calls acct)].
    + eexists _, _. split; [reflexivity|]. split; [exists abi; set_solver|].
      split; [done|intros window; apply (withdraw_calls acct)].
  - eexists _, _. split; [reflexivity|]. split; [exists abi; set_solver|].
    split; [done|intros window; apply (withdraw_calls acct)].
Qed.

End Deposits.

Lemma DepositIntoWindow_without_minimum_witness :
  exists tr',
    @Contracts.DepositIntoWindow failing_world 3 account_X [] =
      (Some (Err ("failed to get minDeposit: " +:+
                  "failed to call minDeposit function: no contract code"),
             account_X), tr') /\
    Contracts.nothing_sent (drop (length (@nil Contracts.Effect)) tr') = true.
Proof.
  apply (@DepositIntoWindow_without_minimum failing_world 3 account_X []
           "failed to call minDeposit function: no contract code").
  reflexivity.
Defined.

Lemma deposit_then_withdraw_witness :
  exists result tr',
    @Contracts.DepositIntoWindow kind_world 3 account_X [] =
      (Some (result,
             Contracts.mkAcct
               (Contracts.mkOpts (Contracts.opts_From (Contracts.Auth account_X)) (Some 7))
               (Contracts.acct_Address account_X)), tr') /\
    Contracts.transact_called tr'
      (Contracts.mkOpts (Contracts.opts_From (Contracts.Auth account_X)) (Some 7))
      "depositForSpecificWindow" [Contracts.VBigInt 3] /\
    (forall tx, result = Ok tx ->
       @Contracts.transact_returned kind_world tr'
         (Contracts.mkOpts (Contracts.opts_From (Contracts.Auth account_X)) (Some 7))
         "depositForSpecificWindow" [Contracts.VBigInt 3] tx /\
       exists tr'' receipt,
         tr'' `prefix_of` tr' /\
         @Contracts.bind_WaitMined kind_world tr'' tx = Ok receipt /\
         Contracts.Status receipt = 1) /\
    forall window,
      Contracts.transact_called
        (@Contracts.WithdrawFromWindow kind_world
           (Contracts.mkAcct
              (Contracts.mkOpts (Contracts.opts_From (Contracts.Auth account_X)) (Some 7))
              (Contracts.acct_Address account_X)) window tr').2
        (Contracts.mkOpts (Contracts.opts_From (Contracts.Auth account_X)) (Some 7))
        "withdrawBidderAmountFromWindow"
        [Contracts.VAddress (Contracts.acct_Address account_X); Contracts.VBigInt window].
Proof.
  apply (@deposit_then_withdraw kind_world 3 account_X [] 7).
  reflexivity.
Defined.

(** In the world where every call fails, the withdrawal calls [Transact]
    with the zero ABI and returns the error of that call: the call is in the
    trace, and no transaction exists. *)
Example withdrawal_that_fails :
  @Contracts.WithdrawFromWindow failing_world account_X 3 [] =
    (Some (Err "failed to create withdrawal transaction: no contract code"),
     [Contracts.ReadFile "abi/BidderRegistry.abi";
      Contracts.LogPrintln "Failed to load ABI file: no such file";
      Contracts.LogPrintln "Failed to load ABI file: EOF";
      Contracts.Transact (Contracts.Auth account_X) Contracts.bidderRegistryAddress
        Contracts.ZeroABI "withdrawBidderAmountFromWindow"
        [Contracts.VAddress sender_X; Contracts.VBigInt 3]]).
Proof. reflexivity. Qed.

(** * The bidder calls *)

Lemma uint64_of_int64 w : 0 <= w < 2 ^ 64 -> Uint64 (wrap_int w) = w.
Proof.
  intros Hw. unfold Uint64, wrap_int.
  destruct (Z_lt_le_dec w (2 ^ 63)) as [Hsmall|Hlarge].
  - rewrite (Z.mod_small (w + 2 ^ 63)) by lia.
    rewrite Z.mod_small; lia.
  - replace (w + 2 ^ 63) with (w - 2 ^ 63 + 1 * 2 ^ 64) by lia.
    rewrite Z_mod_plus_full, (Z.mod_small (w - 2 ^ 63)) by lia.
    replace (w - 2 ^ 63 - 2 ^ 63) with (w + (-1) * 2 ^ 64) by lia.
    rewrite Z_mod_plus_full, Z.mod_small; lia.
Qed.

Section Bidder.
Context `{BidderAPI.Client}.
Import BidderAPI.

(** The window number survives the two conversions: when
    [DepositMinBidAmount] returns a number, the server had answered a
    deposit of exactly the minimum amount with a window, the number is that
    window read as an [int64], negative from [2^63] on, and [WithdrawFunds]
    called with the number asks for the withdrawal from that very window. *)
Theorem window_round_trip tr windowNumber tr' :
  (forall tr request response w,
     client_Deposit tr request = Ok response ->
     WindowNumber response = Some w -> 0 <= w < 2 ^ 64) ->
  DepositMinBidAmount tr = (Some (Ok windowNumber), tr') ->
  exists minimum response w,
    client_GetMinDeposit tr = Ok minimum /\
    client_Deposit (tr ++ [ClientGetMinDeposit]) (mkDepositRequest (Amount minimum)) =
      Ok response /\
    WindowNumber response = Some w /\
    windowNumber = wrap_int w /\
    (2 ^ 63 <= w -> windowNumber = w - 2 ^ 64) /\
    tr' = tr ++ [ClientGetMinDeposit;
                 ClientDeposit (mkDepositRequest (Amount minimum));
                 PrintfDeposited windowNumber] /\
    exists rest,
      (WithdrawFunds windowNumber tr').2 =
      tr' ++ ClientWithdraw (mkWithdrawRequest w) :: rest.
Proof.
  intros Hrange. unfold DepositMinBidAmount, GetMinDeposit, bind, perform, ret, panic.
  destruct (client_GetMinDeposit tr) as [minimum|e] eqn:Hmin; simpl; [|done].
  destruct (client_Deposit _ _) as [response|e] eqn:Hdeposit; simpl; [|done].
  destruct (WindowNumber response) as [w|] eqn:Hwindow; simpl; [|done].
  intros [= <- <-]. exists minimum, response, w.
  pose proof (Hrange _ _ _ _ Hdeposit Hwindow) as Hw.
  repeat split; try done.
  - intros Hlarge. unfold wrap_int.
    replace (w + 2 ^ 63) with (w - 2 ^ 63 + 1 * 2 ^ 64) by lia.
    rewrite Z_mod_plus_full, Z.mod_small; lia.
  - by rewrite <- !app_assoc.
  - unfold WithdrawFunds, bind, perform, ret. rewrite uint64_of_int64 by done.
    destruct (client_Withdraw _ _) as [text|e]; simpl.
    + eexists. by rewrite <- app_assoc.
    + by exists [].
Qed.

End Bidder.

Lemma window_round_trip_witness :
  exists minimum response w,
    @BidderAPI.client_GetMinDeposit (server (2 ^ 63 + 5)) [] = Ok minimum /\
    @BidderAPI.client_Deposit (server (2 ^ 63 + 5)) ([] ++ [BidderAPI.ClientGetMinDeposit])
      (BidderAPI.mkDepositRequest (BidderAPI.Amount minimum)) = Ok response /\
    BidderAPI.WindowNumber response = Some w /\
    -9223372036854775803 = wrap_int w /\
    (2 ^ 63 <= w -> -9223372036854775803 = w - 2 ^ 64) /\
    [BidderAPI.ClientGetMinDeposit;
     BidderAPI.ClientDeposit (BidderAPI.mkDepositRequest "1000");
     BidderAPI.PrintfDeposited (-9223372036854775803)] =
    [] ++ [BidderAPI.ClientGetMinDeposit;
           BidderAPI.ClientDeposit (BidderAPI.mkDepositRequest (BidderAPI.Amount minimum));
           BidderAPI.PrintfDeposited (-9223372036854775803)] /\
    exists rest,
      (@BidderAPI.WithdrawFunds (server (2 ^ 63 + 5)) (-9223372036854775803)
         [BidderAPI.ClientGetMinDeposit;
          BidderAPI.ClientDeposit (BidderAPI.mkDepositRequest "1000");
          BidderAPI.PrintfDeposited (-9223372036854775803)]).2 =
      [BidderAPI.ClientGetMinDeposit;
       BidderAPI.ClientDeposit (BidderAPI.mkDepositRequest "1000");
       BidderAPI.PrintfDeposited (-9223372036854775803)]
        ++ BidderAPI.ClientWithdraw (BidderAPI.mkWithdrawRequest w) :: rest.
Proof.
  apply (@window_round_trip (server (2 ^ 63 + 5)) [] (-9223372036854775803)
           [BidderAPI.ClientGetMinDeposit;
            BidderAPI.ClientDeposit (BidderAPI.mkDepositRequest "1000");
            BidderAPI.PrintfDeposited (-9223372036854775803)]).
  - intros tr request response w [= <-]. simpl. intros [= <-]. lia.
  - reflexivity.
Defined.

(** ** The blobs counted by a pass *)

Lemma blob_total_nonneg l : 0 <= blob_total l.
Proof. induction l as [|e l IH]; simpl; unfold len in *; lia. Qed.

Lemma fold_count_blobs fee h node l b v vb :
  0 <= b -> 0 <= vb -> b + blob_total l < 2 ^ 63 -> vb + blob_total l < 2 ^ 63 ->
  (fold_left (count_step fee h node) l (b, v, vb)).1.1 =
    b + blob_total (List.filter (is_included h node) l) /\
  (fold_left (count_step fee h node) l (b, v, vb)).2 =
    vb + blob_total (List.filter (is_viable fee h node) l).
Proof.
  revert b v vb. induction l as [|e l IH]; intros b v vb Hb Hvb Hbb Hbvb.
  - simpl. lia.
  - cbn [fold_left]. simpl blob_total in Hbb, Hbvb.
    pose proof (blob_total_nonneg l) as Hl.
    assert (0 <= len (tx_BlobHashes e.2)) as He by (unfold len; lia).
    unfold count_step at 2 4. simpl List.filter.
    unfold is_included at 1, is_viable at 1, verdict.
    destruct (receipt_in_head node h e.1) as [r|]; simpl.
    + destruct (IH (wrap_int (b + len (tx_BlobHashes e.2))) v vb) as [-> ->];
        rewrite ?wrap_int_small; lia.
    + destruct (tx_Sender e.2) as [acc|]; simpl;
        [|destruct (IH b v vb) as [-> ->]; lia].
      destruct (NonceAtHash node acc (h_Hash h)) as [currNonce|]; simpl;
        [|destruct (IH b v vb) as [-> ->]; lia].
      destruct (tx_Nonce e.2 <? currNonce); simpl;
        [destruct (IH b v vb) as [-> ->]; lia|].
      destruct (negb (tx_Nonce e.2 =? currNonce)); simpl;
        [destruct (IH b v vb) as [-> ->]; lia|].
      destruct (fee <=? tx_BlobGasFeeCap e.2); simpl;
        [|destruct (IH b v vb) as [-> ->]; lia].
      destruct (IH b (wrap_int (v + 1)) (wrap_int (vb + len (tx_BlobHashes e.2))))
        as [-> ->]; rewrite ?wrap_int_small; lia.
Qed.

(** When the blobs of the pending transactions are few enough for Go's
    [int], the number of included blobs printed after a pass is the number
    of blobs of the entries found in the block of the head, whether an
    inclusion record was written for them or not, and the number of viable
    blobs is the number of blobs of the entries with the verdict viable. *)
Theorem pass_blob_counts `{Library} st h node now entries :
  blob_total entries < 2 ^ 63 ->
  blobInclusions (head_aggregates st h node now entries) =
    blob_total (List.filter (is_included h node) entries) /\
  viableBlobCount (head_aggregates st h node now entries) =
    blob_total (List.filter (is_viable (next_base_fee st h) h node) entries).
Proof.
  intros Hbound.
  pose proof (head_counters st h node now entries) as Hcount.
  destruct (fold_count_blobs (next_base_fee st h) h node entries 0 0 0)
    as [Hb Hvb]; try lia.
  rewrite <- Hcount in Hb, Hvb. unfold counters in Hb, Hvb. simpl in Hb, Hvb.
  unfold head_aggregates, aggregates. simpl. lia.
Qed.

Lemma pass_blob_counts_witness :
  blobInclusions (head_aggregates state_AB head_7 node_including_A 200
    [(tx_Hash tx_B, tx_B); (tx_Hash tx_A, tx_A)]) =
    blob_total (List.filter (is_included head_7 node_including_A)
                  [(tx_Hash tx_B, tx_B); (tx_Hash tx_A, tx_A)]) /\
  viableBlobCount (head_aggregates state_AB head_7 node_including_A 200
    [(tx_Hash tx_B, tx_B); (tx_Hash tx_A, tx_A)]) =
    blob_total (List.filter (is_viable (next_base_fee state_AB head_7) head_7 node_including_A)
                  [(tx_Hash tx_B, tx_B); (tx_Hash tx_A, tx_A)]).
Proof.
  apply (pass_blob_counts state_AB head_7 node_including_A 200
           [(tx_Hash tx_B, tx_B); (tx_Hash tx_A, tx_A)]).
  by vm_compute.
Defined.
